(** * Prachar.ai copy generation: the fallback orchestrator of [src/lib/bedrock.ts]

    A shallow embedding of [callGeminiDirect], [callPollinationsText],
    [generateMarketingCopy] and [parseResponse], together with the parts of
    the JavaScript runtime they lean on ([String.prototype.replace] with a
    global literal pattern, [String.prototype.trim], [JSON.parse],
    [JSON.stringify] of the request envelope, [encodeURIComponent], [fetch]
    with an abort signal), followed by the properties of the orchestrator. *)

From Stdlib Require Import List NArith Bool Ascii String Lia.
Import ListNotations.

Local Open Scope N_scope.
Set Warnings "-register-all".

(** ** JavaScript strings

    A JavaScript string is a finite sequence of UTF-16 code units.  Literals
    of the source are all ASCII; [lit] turns a Rocq string into the code
    units of the same text. *)

Module Js.

Definition jsstring := list N.

Definition lit (s : string) : jsstring :=
  map N_of_ascii (list_ascii_of_string s).

(** The double quote, the backslash and the line feed, which the literals
    below splice in by code. *)
Definition DQUOTE : N := 34.
Definition BACKSLASH : N := 92.
Definition LF : N := 10.

Definition quoted (s : string) : jsstring := DQUOTE :: lit s ++ [DQUOTE].

Fixpoint jsstring_eqb (a b : jsstring) : bool :=
  match a, b with
  | [], [] => true
  | x :: a', y :: b' => (x =? y) && jsstring_eqb a' b'
  | _, _ => false
  end.

Fixpoint starts_with (pat s : jsstring) : bool :=
  match pat, s with
  | [], _ => true
  | p :: pat', c :: s' => (p =? c) && starts_with pat' s'
  | _ :: _, [] => false
  end.

(** [s.replace(/pat/g, '')] for a literal, non-empty pattern: every match,
    scanning left to right and resuming after the end of the previous match,
    is deleted.  [skip] counts the code units of the current match that are
    still to be dropped. *)
Fixpoint remove_matches (pat : jsstring) (skip : nat) (s : jsstring) : jsstring :=
  match s with
  | [] => []
  | c :: s' =>
      match skip with
      | S k => remove_matches pat k s'
      | O =>
          if starts_with pat s
          then remove_matches pat (Nat.pred (List.length pat)) s'
          else c :: remove_matches pat O s'
      end
  end.

Definition replace_global (pat s : jsstring) : jsstring := remove_matches pat O s.

(** WhiteSpace and LineTerminator code units of ECMAScript, the ones [trim]
    removes at both ends. *)
Definition is_js_space (c : N) : bool :=
  ((9 <=? c) && (c <=? 13)) || (c =? 32) || (c =? 160) || (c =? 5760)
  || ((8192 <=? c) && (c <=? 8202)) || (c =? 8232) || (c =? 8233)
  || (c =? 8239) || (c =? 8287) || (c =? 12288) || (c =? 65279).

Fixpoint trim_start (s : jsstring) : jsstring :=
  match s with
  | c :: s' => if is_js_space c then trim_start s' else s
  | [] => []
  end.

Definition trim (s : jsstring) : jsstring :=
  rev (trim_start (rev (trim_start s))).

(** ** Values

    What [JSON.parse] and property reads can produce: JSON data and
    [undefined].  A number is kept as its lexeme (its double value plays no
    part below).  An object is the list of its own properties in creation
    order; [obj_set] is [CreateDataProperty]: a repeated key keeps its place
    and takes the later value (that enumeration puts integer-like keys first
    is not represented; reads do not depend on it). *)

Inductive value :=
| Undefined
| Null
| Bool (b : bool)
| Num (lexeme : jsstring)
| Str (s : jsstring)
| Arr (items : list value)
| Obj (props : list (jsstring * value)).

Definition object := list (jsstring * value).

Fixpoint obj_get (k : jsstring) (o : object) : option value :=
  match o with
  | [] => None
  | (k', v) :: o' => if jsstring_eqb k k' then Some v else obj_get k o'
  end.

Fixpoint obj_set (k : jsstring) (v : value) (o : object) : object :=
  match o with
  | [] => [(k, v)]
  | (k', v') :: o' =>
      if jsstring_eqb k k' then (k', v) :: o' else (k', v') :: obj_set k v o'
  end.

(** ** Exceptions

    [JsError] is [new Error(message)]; the others are the built-in errors the
    runtime raises ([fetch] rejects with a [TypeError] when the connection
    fails and with an [AbortError] when its signal aborts). *)

Inductive exn :=
| JsError (message : jsstring)
| TypeError
| SyntaxError
| URIError
| AbortError.

Inductive outcome (A : Type) :=
| Ok (a : A)
| Throw (e : exn).
Arguments Ok {A} a.
Arguments Throw {A} e.

End Js.
Import Js.

(** ** [JSON.parse]

    The JSON grammar of ECMA-404 as ECMAScript reads it: a lexer that walks
    the code units once, and a parser that walks the tokens once with an
    explicit stack of open arrays and objects.  Both recurse on their input
    only, so [JSON_parse] is total. *)

Module Json.

Inductive token :=
| TLBrace | TRBrace | TLBracket | TRBracket | TColon | TComma
| TString (s : jsstring)
| TNumber (lexeme : jsstring)
| TTrue | TFalse | TNull.

(** States of the automaton of a JSON number: an optional minus sign; then
    a single zero, or a non-zero digit and any digits; then optionally a dot
    and one or more digits; then optionally e or E, an optional sign and one
    or more digits. *)
Inductive num_state :=
| NMinus | NZero | NInt | NDot | NFrac | NExp | NExpSign | NExpDigits.

Definition num_accepting (st : num_state) : bool :=
  match st with
  | NZero | NInt | NFrac | NExpDigits => true
  | NMinus | NDot | NExp | NExpSign => false
  end.

Definition is_digit (c : N) : bool := (48 <=? c) && (c <=? 57).
Definition is_digit19 (c : N) : bool := (49 <=? c) && (c <=? 57).
Definition is_dot (c : N) : bool := c =? 46.
Definition is_exp (c : N) : bool := (c =? 101) || (c =? 69).
Definition is_sign (c : N) : bool := (c =? 43) || (c =? 45).

Definition num_step (st : num_state) (c : N) : option num_state :=
  match st with
  | NMinus =>
      if c =? 48 then Some NZero
      else if is_digit19 c then Some NInt else None
  | NZero =>
      if is_dot c then Some NDot
      else if is_exp c then Some NExp else None
  | NInt =>
      if is_digit c then Some NInt
      else if is_dot c then Some NDot
      else if is_exp c then Some NExp else None
  | NDot => if is_digit c then Some NFrac else None
  | NFrac =>
      if is_digit c then Some NFrac
      else if is_exp c then Some NExp else None
  | NExp =>
      if is_digit c then Some NExpDigits
      else if is_sign c then Some NExpSign else None
  | NExpSign => if is_digit c then Some NExpDigits else None
  | NExpDigits => if is_digit c then Some NExpDigits else None
  end.

Definition hex_value (c : N) : option N :=
  if is_digit c then Some (c - 48)
  else if (97 <=? c) && (c <=? 102) then Some (c - 87)
  else if (65 <=? c) && (c <=? 70) then Some (c - 55)
  else None.

(** JSON white space: tab, line feed, carriage return, space. *)
Definition is_json_space (c : N) : bool :=
  (c =? 9) || (c =? 10) || (c =? 13) || (c =? 32).

(** Accumulators hold the code units read so far, latest first. *)
Inductive lex_mode :=
| LStart
| LString (acc : jsstring)
| LEscape (acc : jsstring)
| LUnicode (acc : jsstring) (code : N) (missing : nat)
| LNumber (st : num_state) (acc : jsstring)
| LLiteral (rest : jsstring) (t : token).

Definition lex_start (c : N) : option (lex_mode * list token) :=
  if is_json_space c then Some (LStart, [])
  else if c =? 123 then Some (LStart, [TLBrace])
  else if c =? 125 then Some (LStart, [TRBrace])
  else if c =? 91 then Some (LStart, [TLBracket])
  else if c =? 93 then Some (LStart, [TRBracket])
  else if c =? 58 then Some (LStart, [TColon])
  else if c =? 44 then Some (LStart, [TComma])
  else if c =? DQUOTE then Some (LString [], [])
  else if c =? 45 then Some (LNumber NMinus [c], [])
  else if c =? 48 then Some (LNumber NZero [c], [])
  else if is_digit19 c then Some (LNumber NInt [c], [])
  else if c =? 116 then Some (LLiteral (lit "rue") TTrue, [])
  else if c =? 102 then Some (LLiteral (lit "alse") TFalse, [])
  else if c =? 110 then Some (LLiteral (lit "ull") TNull, [])
  else None.

Definition lex_escape (c : N) : option N :=
  if c =? DQUOTE then Some DQUOTE
  else if c =? BACKSLASH then Some BACKSLASH
  else if c =? 47 then Some 47
  else if c =? 98 then Some 8
  else if c =? 102 then Some 12
  else if c =? 110 then Some 10
  else if c =? 114 then Some 13
  else if c =? 116 then Some 9
  else None.

Definition lex_step (m : lex_mode) (c : N) : option (lex_mode * list token) :=
  match m with
  | LStart => lex_start c
  | LString acc =>
      if c =? DQUOTE then Some (LStart, [TString (rev acc)])
      else if c =? BACKSLASH then Some (LEscape acc, [])
      else if c <? 32 then None
      else Some (LString (c :: acc), [])
  | LEscape acc =>
      if c =? 117 then Some (LUnicode acc 0 4%nat, [])
      else match lex_escape c with
           | Some u => Some (LString (u :: acc), [])
           | None => None
           end
  | LUnicode acc code missing =>
      match hex_value c with
      | None => None
      | Some d =>
          match missing with
          | S O | O => Some (LString (code * 16 + d :: acc), [])
          | S k => Some (LUnicode acc (code * 16 + d) k, [])
          end
      end
  | LNumber st acc =>
      match num_step st c with
      | Some st' => Some (LNumber st' (c :: acc), [])
      | None =>
          if num_accepting st
          then match lex_start c with
               | Some (m', toks) => Some (m', TNumber (rev acc) :: toks)
               | None => None
               end
          else None
      end
  | LLiteral rest t =>
      match rest with
      | [] => None
      | x :: rest' =>
          if c =? x
          then match rest' with
               | [] => Some (LStart, [t])
               | _ :: _ => Some (LLiteral rest' t, [])
               end
          else None
      end
  end.

Definition lex_end (m : lex_mode) : option (list token) :=
  match m with
  | LStart => Some []
  | LNumber st acc => if num_accepting st then Some [TNumber (rev acc)] else None
  | _ => None
  end.

Fixpoint lex (m : lex_mode) (s : jsstring) : option (list token) :=
  match s with
  | [] => lex_end m
  | c :: s' =>
      match lex_step m c with
      | None => None
      | Some (m', toks) =>
          match lex m' s' with
          | None => None
          | Some rest => Some (toks ++ rest)
          end
      end
  end.

(** An open container: an array with the elements read so far (latest
    first), or an object with its properties so far and the key whose value
    is being read. *)
Inductive frame :=
| FArray (done : list value)
| FObject (props : object) (key : jsstring).

Inductive pstate :=
| PValue (stack : list frame)
| PArrayStart (stack : list frame)
| PObjectStart (stack : list frame)
| PKey (props : object) (stack : list frame)
| PColon (props : object) (key : jsstring) (stack : list frame)
| PDone (v : value) (stack : list frame).

Definition value_start (t : token) (stack : list frame) : option pstate :=
  match t with
  | TString s => Some (PDone (Str s) stack)
  | TNumber n => Some (PDone (Num n) stack)
  | TTrue => Some (PDone (Bool true) stack)
  | TFalse => Some (PDone (Bool false) stack)
  | TNull => Some (PDone Null stack)
  | TLBracket => Some (PArrayStart stack)
  | TLBrace => Some (PObjectStart stack)
  | TRBrace | TRBracket | TColon | TComma => None
  end.

Definition parse_step (p : pstate) (t : token) : option pstate :=
  match p with
  | PValue stack => value_start t stack
  | PArrayStart stack =>
      match t with
      | TRBracket => Some (PDone (Arr []) stack)
      | _ => value_start t (FArray [] :: stack)
      end
  | PObjectStart stack =>
      match t with
      | TRBrace => Some (PDone (Obj []) stack)
      | TString k => Some (PColon [] k stack)
      | _ => None
      end
  | PKey props stack =>
      match t with
      | TString k => Some (PColon props k stack)
      | _ => None
      end
  | PColon props k stack =>
      match t with
      | TColon => Some (PValue (FObject props k :: stack))
      | _ => None
      end
  | PDone v stack =>
      match stack with
      | [] => None
      | FArray done :: stack' =>
          match t with
          | TComma => Some (PValue (FArray (v :: done) :: stack'))
          | TRBracket => Some (PDone (Arr (rev (v :: done))) stack')
          | _ => None
          end
      | FObject props k :: stack' =>
          match t with
          | TComma => Some (PKey (obj_set k v props) stack')
          | TRBrace => Some (PDone (Obj (obj_set k v props)) stack')
          | _ => None
          end
      end
  end.

Fixpoint parse_tokens (p : pstate) (ts : list token) : option value :=
  match ts with
  | [] => match p with
          | PDone v [] => Some v
          | _ => None
          end
  | t :: ts' =>
      match parse_step p t with
      | None => None
      | Some p' => parse_tokens p' ts'
      end
  end.

(** [JSON.parse(text)]: the value, or a [SyntaxError]. *)
Definition JSON_parse (text : jsstring) : outcome value :=
  match lex LStart text with
  | None => Throw SyntaxError
  | Some ts =>
      match parse_tokens (PValue []) ts with
      | None => Throw SyntaxError
      | Some v => Ok v
      end
  end.

End Json.
Import Json.

(** ** Property reads, [encodeURIComponent], [JSON.stringify] *)

Module Runtime.

(** [v.name] for the member names the source reads ([candidates], [content],
    [parts], [text]), none of which a built-in prototype defines: reading
    from [undefined] or [null] throws, an object answers with its own
    property, everything else with [undefined]. *)
Definition get_member (v : value) (name : jsstring) : outcome value :=
  match v with
  | Undefined | Null => Throw TypeError
  | Obj props =>
      match obj_get name props with
      | Some x => Ok x
      | None => Ok Undefined
      end
  | Bool _ | Num _ | Str _ | Arr _ => Ok Undefined
  end.

(** [v[0]]. *)
Definition get_first (v : value) : outcome value :=
  match v with
  | Undefined | Null => Throw TypeError
  | Arr items => Ok (hd Undefined items)
  | Str s =>
      match s with
      | [] => Ok Undefined
      | c :: _ => Ok (Str [c])
      end
  | Obj props =>
      match obj_get (lit "0") props with
      | Some x => Ok x
      | None => Ok Undefined
      end
  | Bool _ | Num _ => Ok Undefined
  end.

(** [text.replace] as a method call: only a string has the method; on
    [undefined] and [null] the read throws, on the other values the member
    is not callable (JSON data holds no functions), which throws as well. *)
Definition string_receiver (v : value) : outcome jsstring :=
  match v with
  | Str s => Ok s
  | Undefined | Null | Bool _ | Num _ | Arr _ | Obj _ => Throw TypeError
  end.

Definition is_lead_surrogate (c : N) : bool := (55296 <=? c) && (c <=? 56319).
Definition is_trail_surrogate (c : N) : bool := (56320 <=? c) && (c <=? 57343).

Definition code_point (lead trail : N) : N :=
  65536 + (lead - 55296) * 1024 + (trail - 56320).

Definition utf8 (cp : N) : list N :=
  if cp <? 128 then [cp]
  else if cp <? 2048 then [192 + cp / 64; 128 + cp mod 64]
  else if cp <? 65536
       then [224 + cp / 4096; 128 + (cp / 64) mod 64; 128 + cp mod 64]
       else [240 + cp / 262144; 128 + (cp / 4096) mod 64;
             128 + (cp / 64) mod 64; 128 + cp mod 64].

Definition hex_upper (d : N) : N := if d <? 10 then 48 + d else 55 + d.
Definition hex_lower (d : N) : N := if d <? 10 then 48 + d else 87 + d.

Definition percent (byte : N) : jsstring :=
  [37; hex_upper (byte / 16); hex_upper (byte mod 16)].

Definition is_alnum (c : N) : bool :=
  ((48 <=? c) && (c <=? 57)) || ((65 <=? c) && (c <=? 90))
  || ((97 <=? c) && (c <=? 122)).

(** The characters [encodeURIComponent] leaves alone: letters, digits and
    - _ . ! ~ * ' ( ) *)
Definition uri_unreserved (c : N) : bool :=
  is_alnum c || (c =? 45) || (c =? 95) || (c =? 46) || (c =? 33)
  || (c =? 126) || (c =? 42) || (c =? 39) || (c =? 40) || (c =? 41).

Definition prepend (pre : jsstring) (r : outcome jsstring) : outcome jsstring :=
  match r with
  | Ok s => Ok (pre ++ s)
  | Throw e => Throw e
  end.

(** [pending] is a lead surrogate waiting for its trail. *)
Fixpoint encode_units (pending : option N) (s : jsstring) : outcome jsstring :=
  match s with
  | [] =>
      match pending with
      | None => Ok []
      | Some _ => Throw URIError
      end
  | c :: s' =>
      match pending with
      | Some lead =>
          if is_trail_surrogate c
          then prepend (flat_map percent (utf8 (code_point lead c)))
                       (encode_units None s')
          else Throw URIError
      | None =>
          if uri_unreserved c then prepend [c] (encode_units None s')
          else if is_lead_surrogate c then encode_units (Some c) s'
          else if is_trail_surrogate c then Throw URIError
          else prepend (flat_map percent (utf8 c)) (encode_units None s')
      end
  end.

(** [encodeURIComponent(s)]: UTF-8 percent-encoding; a lone surrogate is a
    [URIError]. *)
Definition encodeURIComponent (s : jsstring) : outcome jsstring :=
  encode_units None s.

Definition unicode_escape (c : N) : jsstring :=
  [BACKSLASH; 117; hex_lower (c / 4096); hex_lower ((c / 256) mod 16);
   hex_lower ((c / 16) mod 16); hex_lower (c mod 16)].

Definition quote_unit (c : N) : jsstring :=
  if c =? 8 then [BACKSLASH; 98]
  else if c =? 9 then [BACKSLASH; 116]
  else if c =? 10 then [BACKSLASH; 110]
  else if c =? 12 then [BACKSLASH; 102]
  else if c =? 13 then [BACKSLASH; 114]
  else if c =? DQUOTE then [BACKSLASH; DQUOTE]
  else if c =? BACKSLASH then [BACKSLASH; BACKSLASH]
  else if c <? 32 then unicode_escape c
  else [c].

Definition next_is_trail (s : jsstring) : bool :=
  match s with
  | d :: _ => is_trail_surrogate d
  | [] => false
  end.

(** [after_lead] says that the unit before was a lead surrogate, kept
    because this one is its trail. *)
Fixpoint quote_units (after_lead : bool) (s : jsstring) : jsstring :=
  match s with
  | [] => []
  | c :: s' =>
      if is_lead_surrogate c
      then (if next_is_trail s' then [c] else unicode_escape c)
           ++ quote_units (next_is_trail s') s'
      else if is_trail_surrogate c
      then (if after_lead then [c] else unicode_escape c)
           ++ quote_units false s'
      else quote_unit c ++ quote_units false s'
  end.

(** [JSON.stringify] of a string. *)
Definition QuoteJSONString (s : jsstring) : jsstring :=
  DQUOTE :: quote_units false s ++ [DQUOTE].

End Runtime.
Import Runtime.

(** ** The network, the clock and the effect log

    A [world] fixes what lies outside the program: the environment variable
    holding the Gemini key, and, for every request, what the network does
    with it: after [latency] milliseconds the request settles, with a
    connection failure or with a response (its status and headers).
    Transport timeouts make every request settle.  A response carries its
    status, its body, decoded as text ([None] when reading the body fails),
    and the [body_delay] milliseconds that reading the body takes once the
    response has arrived.

    Effects are threaded as a log of events, appended in program order. *)

Module Effects.

Inductive tier := Primary | Secondary.

Inductive http_method := GET | POST.

Record request := {
  req_url : jsstring;
  req_method : http_method;
  req_headers : list (jsstring * jsstring);
  req_body : option jsstring
}.

Record response := {
  status : N;
  payload : option jsstring;
  body_delay : N
}.

(** [response.ok]: a status in the range 200-299. *)
Definition ok (r : response) : bool := (200 <=? status r) && (status r <=? 299).

Inductive arrival :=
| ConnectionFails
| Arrives (r : response).

(** [timer_wins_tie] settles the order of a timer and a response that are
    due in the same millisecond, which the event loop leaves open. *)
Record net_behaviour := {
  latency : N;
  timer_wins_tie : bool;
  settles : arrival
}.

Record world := {
  NEXT_PUBLIC_GEMINI_API_KEY : option jsstring;
  net : request -> net_behaviour
}.

Inductive event :=
| Invoke (t : tier)
| Finish (t : tier) (returned : bool)
| TimerSet (ms : N)
| TimerCleared
| AbortFired
| FetchStart (r : request) (abort_after : option N)
| FetchSettle (r : request) (fulfilled : bool) (elapsed : N)
| BodyRead (fulfilled : bool) (elapsed : N).

Definition M (A : Type) : Type := list event -> outcome A * list event.

Definition ret {A} (a : A) : M A := fun log => (Ok a, log).

Definition throw {A} (e : exn) : M A := fun log => (Throw e, log).

Definition lift {A} (o : outcome A) : M A := fun log => (o, log).

Definition bind {A B} (m : M A) (k : A -> M B) : M B :=
  fun log =>
    match m log with
    | (Ok a, log') => k a log'
    | (Throw e, log') => (Throw e, log')
    end.

Definition try_catch {A} (m : M A) (handler : exn -> M A) : M A :=
  fun log =>
    match m log with
    | (Ok a, log') => (Ok a, log')
    | (Throw e, log') => handler e log'
    end.

Definition emit (e : event) : M unit := fun log => (Ok tt, log ++ [e]).

Definition is_ok {A} (o : outcome A) : bool :=
  match o with
  | Ok _ => true
  | Throw _ => false
  end.

(** Ghost instrumentation of a provider function: its entry and its exit
    (by return or by throw) are logged. *)
Definition instrument {A} (t : tier) (m : M A) : M A :=
  fun log =>
    let (r, log') := m (log ++ [Invoke t]) in
    (r, log' ++ [Finish t (is_ok r)]).

Declare Scope js_scope.
Delimit Scope js_scope with js.
Notation "x <- m ;; k" := (bind m (fun x => k))
  (at level 61, m at next level, right associativity) : js_scope.
Notation "m ;; k" := (bind m (fun _ => k))
  (at level 61, right associativity) : js_scope.

Local Open Scope js_scope.

(** Does a timer that calls [controller.abort()] after [d] milliseconds
    fire before the request settles? *)
Definition timer_fires_first (d : N) (b : net_behaviour) : bool :=
  (d <? latency b) || ((d =? latency b) && timer_wins_tie b).

(** The request runs its course. *)
Definition settle (w : world) (req : request) : M response :=
  match settles (net w req) with
  | ConnectionFails =>
      emit (FetchSettle req false (latency (net w req))) ;; throw TypeError
  | Arrives r =>
      emit (FetchSettle req true (latency (net w req))) ;; ret r
  end.

(** [await fetch(url, {..., signal})].  The promise settles when the status
    and headers of the response arrive, when the connection fails, or when
    the signal aborts, whichever comes first; [FetchSettle] records how long
    that took. *)
Definition fetch (w : world) (req : request) (abort_after : option N) : M response :=
  emit (FetchStart req abort_after) ;;
  match abort_after with
  | Some d =>
      if timer_fires_first d (net w req)
      then emit AbortFired ;; emit (FetchSettle req false d) ;; throw AbortError
      else settle w req
  | None => settle w req
  end.

(** [await response.text()]: the promise settles when the body has been
    read or its reading has failed; [BodyRead] records how long that took.
    No signal is left to abort it: where one was passed to [fetch], its
    timer has been cleared by then. *)
Definition response_text (r : response) : M jsstring :=
  match payload r with
  | None => emit (BodyRead false (body_delay r)) ;; throw TypeError
  | Some body => emit (BodyRead true (body_delay r)) ;; ret body
  end.

(** [await response.json()]. *)
Definition response_json (r : response) : M value :=
  body <- response_text r ;; lift (JSON_parse body).

Definition run {A} (m : M A) : outcome A * list event := m [].
Definition result_of {A} (m : M A) : outcome A := fst (run m).
Definition events_of {A} (m : M A) : list event := snd (run m).

End Effects.
Import Effects.
Local Open Scope js_scope.

(** ** [src/lib/bedrock.ts] *)

Definition ELITE_SYSTEM_PROMPT : jsstring :=
  [LF]
  ++ lit "You are a World-Class Copywriter for a luxury brand (think Apple, Nike, Cred)." ++ [LF]
  ++ lit "Your goal is to write a high-status, emotionally resonant campaign for an Indian audience." ++ [LF]
  ++ [LF]
  ++ lit "Tone: Sophisticated, Witty, and Premium." ++ [LF]
  ++ lit "Language: " ++ quoted "Urban Hinglish"
  ++ lit " (mostly English, with 1-2 powerful Hindi words for impact)." ++ [LF]
  ++ [LF]
  ++ lit "Instructions:" ++ [LF]
  ++ lit "1. " ++ quoted "hook"
  ++ lit ": Write a magnetic headline. It should promise a transformation, not just a product." ++ [LF]
  ++ lit "   - Cheap: " ++ quoted "Buy domains fast." ++ [LF]
  ++ lit "   - Premium: "
  ++ quoted "Your digital legacy begins here. Naam banao, pehchaan banao." ++ [LF]
  ++ lit "   " ++ [LF]
  ++ lit "2. " ++ quoted "offer"
  ++ lit ": A value-driven proposition, not just a discount." ++ [LF]
  ++ lit "   - Cheap: " ++ quoted "30% off." ++ [LF]
  ++ lit "   - Premium: "
  ++ quoted "Exclusive Early Access: 30% Advantage for the visionaries." ++ [LF]
  ++ [LF]
  ++ lit "3. " ++ quoted "cta" ++ lit ": A confident, low-pressure command." ++ [LF]
  ++ lit "   - Cheap: " ++ quoted "Click here now." ++ [LF]
  ++ lit "   - Premium: " ++ quoted "Claim Your Space" ++ lit " or "
  ++ quoted "Begin the Journey." ++ [LF]
  ++ [LF]
  ++ lit "Output JSON Structure:" ++ [LF]
  ++ lit "{" ++ [LF]
  ++ lit "  " ++ quoted "hook" ++ lit ": " ++ quoted "..." ++ lit "," ++ [LF]
  ++ lit "  " ++ quoted "offer" ++ lit ": " ++ quoted "..." ++ lit "," ++ [LF]
  ++ lit "  " ++ quoted "cta" ++ lit ": " ++ quoted "..." ++ [LF]
  ++ lit "}" ++ [LF].

(** The text both engines are sent:
    [`${ELITE_SYSTEM_PROMPT}\n\nBrand Focus: ${prompt}`]. *)
Definition brand_brief (prompt : jsstring) : jsstring :=
  ELITE_SYSTEM_PROMPT ++ [LF; LF] ++ lit "Brand Focus: " ++ prompt.

(** [JSON.stringify({contents: [{parts: [{text}]}]})]. *)
Definition gemini_body (text : jsstring) : jsstring :=
  lit "{" ++ quoted "contents" ++ lit ":[{" ++ quoted "parts" ++ lit ":[{"
  ++ quoted "text" ++ lit ":" ++ QuoteJSONString text ++ lit "}]}]}".

Definition gemini_request (apiKey prompt : jsstring) : request :=
  {| req_url :=
       lit "https://generativelanguage.googleapis.com/v1/models/gemini-pro:generateContent?key="
       ++ apiKey;
     req_method := POST;
     req_headers := [(lit "Content-Type", lit "application/json")];
     req_body := Some (gemini_body (brand_brief prompt)) |}.

(** The aggressive timeout of engine A, in milliseconds. *)
Definition GEMINI_TIMEOUT_MS : N := 1500.

(** Engine A.  [!apiKey] holds when the variable is unset or empty.  The
    timer is cleared once [fetch] has fulfilled and is left armed when it
    rejects; what [data.candidates[0].content.parts[0].text] holds is
    returned as it is, string or not. *)
Definition callGeminiDirect (w : world) (prompt : jsstring) : M value :=
  instrument Primary
    (match NEXT_PUBLIC_GEMINI_API_KEY w with
     | None | Some [] => throw (JsError (lit "No Gemini Key"))
     | Some (k :: ey) =>
         emit (TimerSet GEMINI_TIMEOUT_MS) ;;
         try_catch
           (response <- fetch w (gemini_request (k :: ey) prompt)
                              (Some GEMINI_TIMEOUT_MS) ;;
            emit TimerCleared ;;
            if negb (ok response) then throw (JsError (lit "Google Blocked"))
            else
              data <- response_json response ;;
              candidates <- lift (get_member data (lit "candidates")) ;;
              candidate <- lift (get_first candidates) ;;
              content <- lift (get_member candidate (lit "content")) ;;
              parts <- lift (get_member content (lit "parts")) ;;
              part <- lift (get_first parts) ;;
              lift (get_member part (lit "text")))
           (fun error => throw error)
     end).

Definition pollinations_request (encoded : jsstring) : request :=
  {| req_url :=
       lit "https://text.pollinations.ai/" ++ encoded ++ lit "?model=openai&json=true";
     req_method := GET;
     req_headers := [];
     req_body := None |}.

(** Engine B. *)
Definition callPollinationsText (w : world) (prompt : jsstring) : M jsstring :=
  instrument Secondary
    (encoded <- lift (encodeURIComponent (brand_brief prompt)) ;;
     response <- fetch w (pollinations_request encoded) None ;;
     if negb (ok response) then throw (JsError (lit "Backup Failed"))
     else response_text response).

Definition copy (hook offer cta : string) : value :=
  Obj [(lit "hook", Str (lit hook)); (lit "offer", Str (lit offer));
       (lit "cta", Str (lit cta))].

(** The object of the [catch] of [parseResponse]. *)
Definition PARSE_FALLBACK : value :=
  copy "Innovation meets Tradition. Perfect choice."
       "Exclusive Member Pricing Applied"
       "Explore Collection".

(** The object of the innermost [catch] of [generateMarketingCopy]
    (safe mode). *)
Definition SAFE_MODE : value :=
  copy "Redefine Excellence. Aaj hi shuru karein."
       "Premium Launch Privilege: 20% Advantage"
       "Experience the Future".

Definition cleanText (text : jsstring) : jsstring :=
  trim (replace_global (lit "```") (replace_global (lit "```json") text)).

Definition parseResponse (text : value) : outcome value :=
  match
    match string_receiver text with
    | Ok s => JSON_parse (cleanText s)
    | Throw e => Throw e
    end
  with
  | Ok parsed => Ok parsed
  | Throw e => Ok PARSE_FALLBACK
  end.

Definition userRequest (topic businessType : jsstring) : jsstring :=
  lit "Business Type: " ++ businessType ++ lit ", Campaign Topic: " ++ topic.

(** The orchestrator. *)
Definition generateMarketingCopy (w : world) (topic businessType : jsstring) : M value :=
  try_catch
    (text <- callGeminiDirect w (userRequest topic businessType) ;;
     lift (parseResponse text))
    (fun err1 =>
       try_catch
         (text <- callPollinationsText w (userRequest topic businessType) ;;
          lift (parseResponse (Str text)))
         (fun err2 => ret SAFE_MODE)).

(** ** Observations on a log *)

Definition invocations (evs : list event) : list tier :=
  flat_map (fun e => match e with Invoke t => [t] | _ => [] end) evs.

Definition tier_eqb (a b : tier) : bool :=
  match a, b with
  | Primary, Primary | Secondary, Secondary => true
  | _, _ => false
  end.

(** How often the provider function of tier [t] was entered. *)
Definition calls (t : tier) (evs : list event) : nat :=
  List.length (filter (tier_eqb t) (invocations evs)).

Definition fetch_starts (evs : list event) : nat :=
  List.length (filter (fun e => match e with FetchStart _ _ => true | _ => false end) evs).

(** A log is sequential when no provider function is entered while another
    is active, every request is started inside a provider function, settles
    before anything else happens to the network, and is the only request of
    that invocation; a body is read inside the invocation that made the
    request, after it has settled.  The state is: the active tier, whether this invocation
    has issued its request, whether a request is in flight. *)
Fixpoint sequential_from (active : option tier) (fetched in_flight : bool)
  (evs : list event) : bool :=
  match evs with
  | [] =>
      match active with
      | None => negb in_flight
      | Some _ => false
      end
  | e :: evs' =>
      match e, active with
      | Invoke t, None => sequential_from (Some t) false false evs'
      | Invoke _, Some _ => false
      | Finish t _, Some t' =>
          tier_eqb t t' && negb in_flight && sequential_from None false false evs'
      | Finish _ _, None => false
      | FetchStart _ _, Some _ =>
          negb fetched && negb in_flight && sequential_from active true true evs'
      | FetchStart _ _, None => false
      | FetchSettle _ _ _, _ => in_flight && sequential_from active fetched false evs'
      | BodyRead _ _, Some _ =>
          fetched && negb in_flight && sequential_from active fetched in_flight evs'
      | BodyRead _ _, None => false
      | (TimerSet _ | TimerCleared | AbortFired), _ =>
          sequential_from active fetched in_flight evs'
      end
  end.

Definition sequential (evs : list event) : bool :=
  sequential_from None false false evs.


(** Is the text JSON? *)
Definition accepts (text : string) : bool := is_ok (JSON_parse (lit text)).

(** A field that is present and holds a non-empty string. *)
Definition nonempty_field (v : value) (name : string) : bool :=
  match v with
  | Obj props =>
      match obj_get (lit name) props with
      | Some (Str (_ :: _)) => true
      | _ => false
      end
  | _ => false
  end.

(** The shape the specification calls CampaignCopy. *)
Definition campaign_copy (v : value) : bool :=
  nonempty_field v "hook" && nonempty_field v "offer"
  && nonempty_field v "callToAction".

(** The shape the prompt asks the engines for, and both fallbacks have. *)
Definition hook_offer_cta (v : value) : bool :=
  nonempty_field v "hook" && nonempty_field v "offer"
  && nonempty_field v "cta".

(** A computation is [framed] when it treats the log it is given as a
    prefix: outcome and new events are those of a run from the empty log. *)
Definition framed {A} (m : M A) : Prop :=
  forall log, m log = (result_of m, log ++ events_of m).

(** The part of [callGeminiDirect] that follows [clearTimeout]. *)
Definition read_gemini (response : response) : M value :=
  if negb (ok response) then throw (JsError (lit "Google Blocked"))
  else
    data <- response_json response ;;
    candidates <- lift (get_member data (lit "candidates")) ;;
    candidate <- lift (get_first candidates) ;;
    content <- lift (get_member candidate (lit "content")) ;;
    parts <- lift (get_member content (lit "parts")) ;;
    part <- lift (get_first parts) ;;
    lift (get_member part (lit "text")).

(** The part of [callPollinationsText] that follows [fetch]. *)
Definition read_pollinations (response : response) : M jsstring :=
  if negb (ok response) then throw (JsError (lit "Backup Failed"))
  else response_text response.

(** How a request ends, in the words of the specification. *)
Inductive transport :=
| DeadlineExpired
| ConnectionError
| BadStatus (code : N)
| Delivered (r : response).

Definition transport_of (abort_after : option N) (b : net_behaviour) : transport :=
  match abort_after with
  | Some d =>
      if timer_fires_first d b then DeadlineExpired
      else match settles b with
           | ConnectionFails => ConnectionError
           | Arrives r => if ok r then Delivered r else BadStatus (status r)
           end
  | None =>
      match settles b with
      | ConnectionFails => ConnectionError
      | Arrives r => if ok r then Delivered r else BadStatus (status r)
      end
  end.

Definition transport_failed (x : transport) : bool :=
  match x with
  | DeadlineExpired | ConnectionError | BadStatus _ => true
  | Delivered _ => false
  end.

(** The events of reading the body of a response, which both engines do
    only after a success status. *)
Definition body_events (r : response) : list event :=
  if ok r
  then [BodyRead (match payload r with Some _ => true | None => false end)
          (body_delay r)]
  else [].

(** The time the network took in a log: the waits for the requests to
    settle and for the bodies to be read, in milliseconds. *)
Fixpoint elapsed_ms (evs : list event) : N :=
  match evs with
  | [] => 0
  | FetchSettle _ _ ms :: evs' => ms + elapsed_ms evs'
  | BodyRead _ ms :: evs' => ms + elapsed_ms evs'
  | _ :: evs' => elapsed_ms evs'
  end.


(** ** Concrete worlds *)

Module Scenario.

Definition answers (ms : N) (code : N) (body : jsstring) : net_behaviour :=
  {| latency := ms; timer_wins_tie := false;
     settles := Arrives {| status := code; payload := Some body; body_delay := 0 |} |}.

Definition unreachable : net_behaviour :=
  {| latency := 30; timer_wins_tie := false; settles := ConnectionFails |}.

(** A reply of the Gemini endpoint whose first candidate holds [text]. *)
Definition gemini_envelope (text : jsstring) : jsstring :=
  lit "{" ++ quoted "candidates" ++ lit ":[{" ++ quoted "content" ++ lit ":{"
  ++ quoted "parts" ++ lit ":[{" ++ quoted "text" ++ lit ":"
  ++ QuoteJSONString text ++ lit "}]}}]}".

(** The two engines told apart by the method of the request. *)
Definition engines (gemini pollinations : net_behaviour) (req : request) : net_behaviour :=
  match req_method req with
  | POST => gemini
  | GET => pollinations
  end.

Definition with_key (net : request -> net_behaviour) : world :=
  {| NEXT_PUBLIC_GEMINI_API_KEY := Some (lit "test-key"); net := net |}.

Definition fenced_copy : jsstring :=
  lit "```json" ++ [LF]
  ++ lit "{" ++ quoted "hook" ++ lit ":" ++ quoted "H" ++ lit ","
  ++ quoted "offer" ++ lit ":" ++ quoted "O" ++ lit ","
  ++ quoted "callToAction" ++ lit ":" ++ quoted "C" ++ lit "}" ++ [LF]
  ++ lit "```".

Definition bare_copy : jsstring :=
  lit "{" ++ quoted "hook" ++ lit ":" ++ quoted "H" ++ lit ","
  ++ quoted "offer" ++ lit ":" ++ quoted "O" ++ lit ","
  ++ quoted "callToAction" ++ lit ":" ++ quoted "C" ++ lit "}".

Definition chatty : jsstring := lit "Sure! Here's your campaign: ...".

(** Gemini answers in time with prose; Pollinations would answer with a
    well-formed copy. *)
Definition w_chatty_primary : world :=
  with_key (engines (answers 200 200 (gemini_envelope chatty))
                    (answers 200 200 bare_copy)).

(** Gemini answers in time with an empty JSON object as its text. *)
Definition w_empty_object : world :=
  with_key (engines (answers 200 200 (gemini_envelope (lit "{}")))
                    (answers 200 200 bare_copy)).

(** Nothing can be reached. *)
Definition w_offline : world := with_key (fun _ => unreachable).

(** Gemini's response arrives after 200 ms, but its body, a well-formed
    copy, takes a minute to read; Pollinations would answer at once. *)
Definition w_slow_body : world :=
  with_key (engines
              {| latency := 200; timer_wins_tie := false;
                 settles := Arrives {| status := 200;
                                       payload := Some (gemini_envelope bare_copy);
                                       body_delay := 60000 |} |}
              (answers 100 200 fenced_copy)).

(** Gemini needs three seconds; Pollinations answers with a fenced copy. *)
Definition w_slow_primary : world :=
  with_key (engines (answers 3000 200 (gemini_envelope bare_copy))
                    (answers 800 200 fenced_copy)).

(** Gemini refuses with status 429; Pollinations is down with status 502. *)
Definition w_refused : world :=
  with_key (engines (answers 100 429 (lit "quota")) (answers 100 502 (lit "bad gateway"))).

(** As [w_slow_primary] for the requests of the two engines, but requests
    with an empty body, which the program never makes, go unanswered. *)
Definition w_slow_primary' : world :=
  with_key (fun req =>
              match req_body req with
              | Some [] => unreachable
              | _ => net w_slow_primary req
              end).

End Scenario.

(** ** The rest of the module: [generatePoster] and the [POST] route *)

Module Route.

Fixpoint uint_digits (u : Decimal.uint) : jsstring :=
  match u with
  | Decimal.Nil => []
  | Decimal.D0 u' => 48 :: uint_digits u'
  | Decimal.D1 u' => 49 :: uint_digits u'
  | Decimal.D2 u' => 50 :: uint_digits u'
  | Decimal.D3 u' => 51 :: uint_digits u'
  | Decimal.D4 u' => 52 :: uint_digits u'
  | Decimal.D5 u' => 53 :: uint_digits u'
  | Decimal.D6 u' => 54 :: uint_digits u'
  | Decimal.D7 u' => 55 :: uint_digits u'
  | Decimal.D8 u' => 56 :: uint_digits u'
  | Decimal.D9 u' => 57 :: uint_digits u'
  end.

(** A natural number in a template literal: its decimal digits. *)
Definition decimal (n : N) : jsstring := uint_digits (N.to_uint n).

Inductive engine := Flux | Turbo.

Definition poster_prompt (topic businessType : jsstring) : jsstring :=
  lit "Professional 3D cinematic commercial photography of " ++ topic
  ++ lit " for " ++ businessType
  ++ lit ", luxury studio lighting, 8k resolution, highly detailed masterpiece, sharp focus".

(** [generatePoster(topic, businessType, engine)].  [seed] is the value
    [Math.floor(Math.random() * 1000000)] takes in the call, a natural
    number below one million. *)
Definition generatePoster (seed : N) (topic businessType : jsstring) (e : engine)
  : outcome jsstring :=
  match encodeURIComponent (poster_prompt topic businessType) with
  | Throw err => Throw err
  | Ok encodedPrompt =>
      match e with
      | Turbo =>
          Ok (lit "https://pollinations.ai/p/" ++ encodedPrompt
              ++ lit "?width=1080&height=1080&model=turbo&seed=" ++ decimal seed
              ++ lit "&nologo=true")
      | Flux =>
          Ok (lit "https://pollinations.ai/p/" ++ encodedPrompt
              ++ lit "?width=1080&height=1080&model=flux&seed=" ++ decimal seed
              ++ lit "&nologo=true&enhance=true")
      end
  end.

(** What [NextResponse.json(data, {status})] answers with. *)
Record http_response := {
  http_status : N;
  http_json : value
}.

Definition BAD_REQUEST : http_response :=
  {| http_status := 400;
     http_json := Obj [(lit "error", Str (lit "Business and Topic are required"))] |}.

Definition FAILED : http_response :=
  {| http_status := 500;
     http_json := Obj [(lit "error", Str (lit "Failed to generate campaign"))] |}.

(** [!!v].  Whether a number is zero depends on its double value, which is
    not represented: [None]. *)
Definition truthy (v : value) : option bool :=
  match v with
  | Undefined | Null => Some false
  | Bool b => Some b
  | Str [] => Some false
  | Str (_ :: _) => Some true
  | Arr _ | Obj _ => Some true
  | Num _ => None
  end.

(** [`${v}`] for the values whose conversion to a string is represented
    (numbers, arrays and objects are not: [None]). *)
Definition template_text (v : value) : option jsstring :=
  match v with
  | Str s => Some s
  | Bool true => Some (lit "true")
  | Bool false => Some (lit "false")
  | Null => Some (lit "null")
  | Undefined => Some (lit "undefined")
  | Num _ | Arr _ | Obj _ => None
  end.

Fixpoint indexed (i : N) (items : list value) : object :=
  match items with
  | [] => []
  | x :: items' => (decimal i, x) :: indexed (i + 1) items'
  end.

(** The own enumerable properties [{...v}] copies: those of an object, the
    elements of an array and the code units of a string under their
    indices, none for the other values. *)
Definition spread (v : value) : object :=
  match v with
  | Obj props => props
  | Arr items => indexed 0 items
  | Str s => indexed 0 (map (fun c => Str [c]) s)
  | Undefined | Null | Bool _ | Num _ => []
  end.

(** [await request.json()]: [payload] is the text of the request body,
    [None] when it cannot be read. *)
Definition request_json (payload : option jsstring) : outcome value :=
  match payload with
  | None => Throw TypeError
  | Some text => JSON_parse text
  end.

(** [!business || !topic]. *)
Definition missing_input (business topic : value) : option bool :=
  match truthy business with
  | None => None
  | Some false => Some true
  | Some true =>
      match truthy topic with
      | None => None
      | Some t => Some (negb t)
      end
  end.

(** The route handler.  The answer is [None] where the run leaves what is
    represented: a number among the two inputs, or an array or object that
    would reach a template literal.  [console.error] is not logged. *)
Definition POST (w : world) (seed : N) (payload : option jsstring) (log : list event)
  : option (http_response * list event) :=
  match request_json payload with
  | Throw _ => Some (FAILED, log)
  | Ok body =>
      match get_member body (lit "business"), get_member body (lit "topic") with
      | Ok business, Ok topic =>
          match missing_input business topic with
          | None => None
          | Some true => Some (BAD_REQUEST, log)
          | Some false =>
              match template_text topic, template_text business with
              | Some t, Some b =>
                  match generateMarketingCopy w t b log with
                  | (Throw _, log') => Some (FAILED, log')
                  | (Ok strategy, log') =>
                      match generatePoster seed t b Flux with
                      | Throw _ => Some (FAILED, log')
                      | Ok imageUrl =>
                          Some ({| http_status := 200;
                                   http_json :=
                                     Obj (obj_set (lit "imageUrl") (Str imageUrl)
                                            (spread strategy)) |},
                                log')
                      end
                  end
              | _, _ => None
              end
          end
      | _, _ => Some (FAILED, log)
      end
  end.

(** No code unit of the text is a surrogate without its partner. *)
Fixpoint well_formed_from (pending : bool) (s : jsstring) : bool :=
  match s with
  | [] => negb pending
  | c :: s' =>
      if pending then is_trail_surrogate c && well_formed_from false s'
      else if is_lead_surrogate c then well_formed_from true s'
      else negb (is_trail_surrogate c) && well_formed_from false s'
  end.

Definition well_formed (s : jsstring) : bool := well_formed_from false s.

(** Not a surrogate. *)
Definition plain (c : N) : bool :=
  negb (is_lead_surrogate c) && negb (is_trail_surrogate c).

(** Every element is a 16-bit code unit. *)
Definition code_units (s : jsstring) : bool := forallb (fun c => c <? 65536) s.

(** The code units [encodeURIComponent] can produce: the unreserved ones,
    the percent sign and the upper-case hexadecimal digits (which are
    unreserved already). *)
Definition url_safe (c : N) : bool := uri_unreserved c || (c =? 37).

(** Does [pat] occur in [s]? *)
Fixpoint occurs (pat s : jsstring) : bool :=
  match s with
  | [] => starts_with pat []
  | _ :: s' => starts_with pat s || occurs pat s'
  end.

(** Absent, null, false or the empty string. *)
Definition blank (v : value) : bool :=
  match v with
  | Undefined | Null | Bool false | Str [] => true
  | _ => false
  end.

Definition is_number (v : value) : bool :=
  match v with
  | Num _ => true
  | _ => false
  end.

(** The text holds no backtick. *)
Definition no_backtick (s : jsstring) : bool := forallb (fun c => negb (c =? 96)) s.

(** The lexer run over a piece of text that more text follows: the mode it
    is left in and the tokens completed so far. *)
Fixpoint lex_through (m : lex_mode) (s : jsstring) : option (lex_mode * list token) :=
  match s with
  | [] => Some (m, [])
  | c :: s' =>
      match lex_step m c with
      | None => None
      | Some (m', toks) =>
          match lex_through m' s' with
          | None => None
          | Some (m'', rest) => Some (m'', toks ++ rest)
          end
      end
  end.

(** The object the request body of [callGeminiDirect] denotes. *)
Definition gemini_contents (text : jsstring) : value :=
  Obj [(lit "contents",
        Arr [Obj [(lit "parts", Arr [Obj [(lit "text", Str text)]])]])].

(** Request bodies used below. *)
Definition body_of (business topic : jsstring) : jsstring :=
  lit "{" ++ quoted "business" ++ lit ":" ++ QuoteJSONString business ++ lit ","
  ++ quoted "topic" ++ lit ":" ++ QuoteJSONString topic ++ lit "}".

(** Gemini answers in time, but with no candidate (as it does for a prompt
    it blocks); Pollinations answers with a fenced copy. *)
Definition w_no_candidate : world :=
  Scenario.with_key
    (Scenario.engines
       (Scenario.answers 200 200 (lit "{" ++ quoted "candidates" ++ lit ":[]}"))
       (Scenario.answers 800 200 Scenario.fenced_copy)).

(** Gemini answers in time with a candidate whose first part has no text;
    Pollinations would answer with a fenced copy. *)
Definition w_no_text : world :=
  Scenario.with_key
    (Scenario.engines
       (Scenario.answers 200 200
          (lit "{" ++ quoted "candidates" ++ lit ":[{" ++ quoted "content" ++ lit ":{"
           ++ quoted "parts" ++ lit ":[{}]}}]}"))
       (Scenario.answers 800 200 Scenario.fenced_copy)).

End Route.
Import Route.

(** ** The log is only ever appended to *)

Section Framing.

Lemma framed_ret {A} (a : A) : framed (ret a).
Proof. intro log. cbv [ret result_of events_of run fst snd]. now rewrite app_nil_r. Qed.

Lemma framed_throw {A} (e : exn) : framed (@throw A e).
Proof. intro log. cbv [throw result_of events_of run fst snd]. now rewrite app_nil_r. Qed.

Lemma framed_lift {A} (o : outcome A) : framed (lift o).
Proof. intro log. cbv [lift result_of events_of run fst snd]. now rewrite app_nil_r. Qed.

Lemma framed_emit (e : event) : framed (emit e).
Proof. intro log. reflexivity. Qed.

Lemma framed_bind {A B} (m : M A) (k : A -> M B) :
  framed m -> (forall a, framed (k a)) -> framed (bind m k).
Proof.
  intros Hm Hk log.
  unfold result_of, events_of, run, bind.
  rewrite (Hm log), (Hm []).
  destruct (result_of m) as [a|e]; cbn [fst snd app].
  - rewrite (Hk a (log ++ events_of m)), (Hk a (events_of m)).
    cbn [fst snd]. now rewrite app_assoc.
  - reflexivity.
Qed.

Lemma framed_try_catch {A} (m : M A) (h : exn -> M A) :
  framed m -> (forall e, framed (h e)) -> framed (try_catch m h).
Proof.
  intros Hm Hh log.
  unfold result_of, events_of, run, try_catch.
  rewrite (Hm log), (Hm []).
  destruct (result_of m) as [a|e]; cbn [fst snd app].
  - reflexivity.
  - rewrite (Hh e (log ++ events_of m)), (Hh e (events_of m)).
    cbn [fst snd]. now rewrite app_assoc.
Qed.

Lemma framed_instrument {A} (t : tier) (m : M A) :
  framed m -> framed (instrument t m).
Proof.
  intros Hm log.
  unfold result_of, events_of, run, instrument.
  rewrite (Hm (log ++ [Invoke t])), (Hm ([] ++ [Invoke t])).
  cbn [fst snd app]. now rewrite <- !app_assoc.
Qed.

Lemma framed_if {A} (c : bool) (m1 m2 : M A) :
  framed m1 -> framed m2 -> framed (if c then m1 else m2).
Proof. now destruct c. Qed.

End Framing.

(** Walks a computation built from the combinators, case by case. *)
Ltac framing :=
  repeat first
    [ apply framed_ret | apply framed_throw | apply framed_lift
    | apply framed_emit
    | apply framed_instrument
    | apply framed_bind; [ | intro ]
    | apply framed_try_catch; [ | intro ]
    | apply framed_if
    | match goal with
      | |- framed (match ?x with _ => _ end) => destruct x
      end ].

Lemma framed_settle (w : world) (req : request) : framed (settle w req).
Proof. unfold settle. framing. Qed.

Lemma framed_fetch (w : world) (req : request) (abort_after : option N) :
  framed (fetch w req abort_after).
Proof. unfold fetch. framing; apply framed_settle. Qed.

Lemma framed_response_text (r : response) : framed (response_text r).
Proof. unfold response_text. framing. Qed.

Lemma framed_response_json (r : response) : framed (response_json r).
Proof. unfold response_json. framing. apply framed_response_text. Qed.

Lemma framed_callGeminiDirect (w : world) (prompt : jsstring) :
  framed (callGeminiDirect w prompt).
Proof.
  unfold callGeminiDirect. framing;
    first [ apply framed_fetch | apply framed_settle | apply framed_response_text ].
Qed.

Lemma framed_callPollinationsText (w : world) (prompt : jsstring) :
  framed (callPollinationsText w prompt).
Proof.
  unfold callPollinationsText. apply framed_instrument.
  apply framed_bind; [ apply framed_lift | intros encoded ].
  apply framed_bind; [ apply framed_fetch | intros response ].
  apply framed_if; [ apply framed_throw | apply framed_response_text ].
Qed.

Lemma framed_generateMarketingCopy (w : world) (topic businessType : jsstring) :
  framed (generateMarketingCopy w topic businessType).
Proof.
  unfold generateMarketingCopy.
  apply framed_try_catch; [ apply framed_bind | intros err1 ].
  - apply framed_callGeminiDirect.
  - intros text. apply framed_lift.
  - apply framed_try_catch; [ apply framed_bind | intros err2; apply framed_ret ].
    + apply framed_callPollinationsText.
    + intros text. apply framed_lift.
Qed.

(** ** What each provider function does, case by case *)

Lemma bind_lift_silent {A B} (o : outcome A) (k : A -> M B) (log : list event) :
  (forall a log', snd (k a log') = log') ->
  snd (bind (lift o) k log) = log.
Proof. intros Hk. unfold bind, lift. destruct o; [ apply Hk | reflexivity ]. Qed.

Lemma response_text_events (r : response) (log : list event) :
  snd (response_text r log)
  = log ++ [BodyRead (match payload r with Some _ => true | None => false end)
              (body_delay r)].
Proof. unfold response_text. now destruct (payload r). Qed.

Lemma read_gemini_events (r : response) (log : list event) :
  snd (read_gemini r log) = log ++ body_events r.
Proof.
  unfold read_gemini, body_events. destruct (ok r); cbn [negb];
    [ | symmetry; apply app_nil_r ].
  unfold response_json, bind at 1 2.
  pose proof (response_text_events r log) as Ht.
  destruct (response_text r log) as [[body|e] log']; cbn [snd] in Ht; rewrite <- Ht;
    [ | reflexivity ].
  repeat (apply bind_lift_silent; intros ? ?).
  reflexivity.
Qed.

Lemma read_pollinations_events (r : response) (log : list event) :
  snd (read_pollinations r log) = log ++ body_events r.
Proof.
  unfold read_pollinations, body_events. destruct (ok r); cbn [negb];
    [ | symmetry; apply app_nil_r ].
  apply response_text_events.
Qed.

Lemma events_run {A} (m : M A) (log evs : list event) :
  framed m -> (forall l, snd (m l) = l ++ evs) -> m log = (result_of m, log ++ evs).
Proof.
  intros Hf Hs. rewrite (Hf log). f_equal.
  unfold events_of, run. now rewrite (Hs []).
Qed.

Lemma body_events_only_reads (r : response) (e : event) :
  In e (body_events r) -> exists fulfilled ms, e = BodyRead fulfilled ms.
Proof.
  unfold body_events. destruct (ok r); [ | contradiction ].
  intros [<-|[]]. now eexists; eexists.
Qed.

Lemma framed_read_gemini (r : response) : framed (read_gemini r).
Proof. unfold read_gemini. framing. apply framed_response_text. Qed.

Lemma framed_read_pollinations (r : response) : framed (read_pollinations r).
Proof. unfold read_pollinations. framing. apply framed_response_text. Qed.

Lemma run_callGeminiDirect (w : world) (prompt : jsstring) :
  run (callGeminiDirect w prompt) =
  match NEXT_PUBLIC_GEMINI_API_KEY w with
  | None | Some [] =>
      (Throw (JsError (lit "No Gemini Key")), [Invoke Primary; Finish Primary false])
  | Some (k :: ey) =>
      let req := gemini_request (k :: ey) prompt in
      if timer_fires_first GEMINI_TIMEOUT_MS (net w req)
      then (Throw AbortError,
            [Invoke Primary; TimerSet GEMINI_TIMEOUT_MS;
             FetchStart req (Some GEMINI_TIMEOUT_MS); AbortFired;
             FetchSettle req false GEMINI_TIMEOUT_MS; Finish Primary false])
      else match settles (net w req) with
           | ConnectionFails =>
               (Throw TypeError,
                [Invoke Primary; TimerSet GEMINI_TIMEOUT_MS;
                 FetchStart req (Some GEMINI_TIMEOUT_MS);
                 FetchSettle req false (latency (net w req));
                 Finish Primary false])
           | Arrives r =>
               (result_of (read_gemini r),
                [Invoke Primary; TimerSet GEMINI_TIMEOUT_MS;
                 FetchStart req (Some GEMINI_TIMEOUT_MS);
                 FetchSettle req true (latency (net w req)); TimerCleared]
                ++ body_events r
                ++ [Finish Primary (is_ok (result_of (read_gemini r)))])
           end
  end.
Proof.
  unfold run, callGeminiDirect, instrument.
  destruct (NEXT_PUBLIC_GEMINI_API_KEY w) as [[|k ey]|]; try reflexivity.
  cbv zeta. set (req := gemini_request (k :: ey) prompt).
  unfold try_catch, fetch, settle, bind at 1 2 3, emit at 1 2.
  cbn [app].
  destruct (timer_fires_first GEMINI_TIMEOUT_MS (net w req)); [ reflexivity | ].
  destruct (settles (net w req)) as [|r]; [ reflexivity | ].
  unfold bind, emit, ret. cbn [app].
  change (fun response : response => _) with read_gemini.
  rewrite (events_run (read_gemini r) _ (body_events r) (framed_read_gemini r)
             (read_gemini_events r)).
  destruct (result_of (read_gemini r)); cbn [app]; reflexivity.
Qed.

Lemma run_callPollinationsText (w : world) (prompt : jsstring) :
  run (callPollinationsText w prompt) =
  match encodeURIComponent (brand_brief prompt) with
  | Throw e => (Throw e, [Invoke Secondary; Finish Secondary false])
  | Ok encoded =>
      let req := pollinations_request encoded in
      match settles (net w req) with
      | ConnectionFails =>
          (Throw TypeError,
           [Invoke Secondary; FetchStart req None;
            FetchSettle req false (latency (net w req));
            Finish Secondary false])
      | Arrives r =>
          (result_of (read_pollinations r),
           [Invoke Secondary; FetchStart req None;
            FetchSettle req true (latency (net w req))]
           ++ body_events r
           ++ [Finish Secondary (is_ok (result_of (read_pollinations r)))])
      end
  end.
Proof.
  unfold run, callPollinationsText, instrument.
  unfold bind at 1, lift.
  destruct (encodeURIComponent (brand_brief prompt)) as [encoded|e]; [ | reflexivity ].
  cbv zeta. set (req := pollinations_request encoded).
  unfold fetch, settle, bind at 1 2, emit at 1. cbn [app].
  destruct (settles (net w req)) as [|r]; [ reflexivity | ].
  unfold bind, emit, ret. cbn [app].
  change (if negb (ok r) then _ else _) with (read_pollinations r).
  rewrite (events_run (read_pollinations r) _ (body_events r)
             (framed_read_pollinations r) (read_pollinations_events r)).
  destruct (result_of (read_pollinations r)); cbn [app]; reflexivity.
Qed.

Lemma parseResponse_total (text : value) : exists v, parseResponse text = Ok v.
Proof.
  unfold parseResponse.
  destruct (string_receiver text) as [s|e]; [ | now eexists ].
  destruct (JSON_parse (cleanText s)); now eexists.
Qed.

(** The orchestrator in terms of its two provider calls: the secondary is
    run only after the primary has thrown, on the log the primary left. *)
Lemma run_generateMarketingCopy (w : world) (topic businessType : jsstring) :
  run (generateMarketingCopy w topic businessType) =
  let primary := callGeminiDirect w (userRequest topic businessType) in
  let secondary := callPollinationsText w (userRequest topic businessType) in
  match result_of primary with
  | Ok text => (parseResponse text, events_of primary)
  | Throw _ =>
      match result_of secondary with
      | Ok text =>
          (parseResponse (Str text), events_of primary ++ events_of secondary)
      | Throw _ => (Ok SAFE_MODE, events_of primary ++ events_of secondary)
      end
  end.
Proof.
  cbv zeta. unfold run, generateMarketingCopy, try_catch, bind, lift, ret.
  rewrite (framed_callGeminiDirect w (userRequest topic businessType) []).
  cbn [app].
  destruct (result_of (callGeminiDirect w (userRequest topic businessType)))
    as [text|err1].
  - destruct (parseResponse_total text) as [v Hv]. now rewrite Hv.
  - rewrite (framed_callPollinationsText w (userRequest topic businessType)
               (events_of (callGeminiDirect w (userRequest topic businessType)))).
    destruct (result_of (callPollinationsText w (userRequest topic businessType)))
      as [text|err2]; [ | reflexivity ].
    destruct (parseResponse_total (Str text)) as [v Hv]. now rewrite Hv.
Qed.

Lemma parseResponse_string (s : jsstring) :
  parseResponse (Str s) =
  match JSON_parse (cleanText s) with
  | Ok parsed => Ok parsed
  | Throw _ => Ok PARSE_FALLBACK
  end.
Proof. reflexivity. Qed.


Lemma invocations_app (a b : list event) :
  invocations (a ++ b) = invocations a ++ invocations b.
Proof. apply flat_map_app. Qed.

Lemma invocations_body_events (r : response) : invocations (body_events r) = [].
Proof. unfold body_events. now destruct (ok r). Qed.

Lemma invocations_callGeminiDirect (w : world) (prompt : jsstring) :
  invocations (events_of (callGeminiDirect w prompt)) = [Primary].
Proof.
  unfold events_of. rewrite run_callGeminiDirect.
  destruct (NEXT_PUBLIC_GEMINI_API_KEY w) as [[|k ey]|]; try reflexivity.
  cbv zeta. set (req := gemini_request (k :: ey) prompt).
  destruct (timer_fires_first GEMINI_TIMEOUT_MS (net w req)); [ reflexivity | ].
  destruct (settles (net w req)); [ reflexivity | ].
  cbn [snd]. rewrite !invocations_app, invocations_body_events. reflexivity.
Qed.

Lemma invocations_callPollinationsText (w : world) (prompt : jsstring) :
  invocations (events_of (callPollinationsText w prompt)) = [Secondary].
Proof.
  unfold events_of. rewrite run_callPollinationsText.
  destruct (encodeURIComponent (brand_brief prompt)) as [encoded|e]; [ | reflexivity ].
  cbv zeta. destruct (settles (net w (pollinations_request encoded)));
    [ reflexivity | ].
  cbn [snd]. rewrite !invocations_app, invocations_body_events. reflexivity.
Qed.

(** ** The runtime model on small inputs *)

Example JSON_parse_nested :
  JSON_parse (lit "{ " ++ quoted "a" ++ lit " : [1, -2.5e+3, true, null, "
              ++ quoted "x" ++ lit "], " ++ quoted "a" ++ lit ":{}}")
  = Ok (Obj [(lit "a", Obj [])]).
Proof. vm_compute. reflexivity. Qed.

Example JSON_parse_rejects :
  accepts "01" || accepts "1 2" || accepts "[1,]" || accepts "tru"
  || accepts "-" || accepts "1.e5" || accepts "[" || accepts "nullx"
  || accepts "{a:1}" || accepts "'a'" || is_ok (JSON_parse []) = false.
Proof. vm_compute. reflexivity. Qed.

Example JSON_parse_accepts :
  accepts "0" && accepts "-0" && accepts "1e5" && accepts "0.5E-7"
  && accepts " null " && accepts "[[]]" && accepts "[1,[2,{}],3]"
  && accepts "{}" = true.
Proof. vm_compute. reflexivity. Qed.

Example JSON_parse_escapes :
  JSON_parse (quoted "\u0041\n\/") = Ok (Str [65; 10; 47])
  /\ JSON_parse (DQUOTE :: LF :: [DQUOTE]) = Throw SyntaxError.
Proof. split; vm_compute; reflexivity. Qed.

Example replace_global_resumes_after_match :
  replace_global (lit "```") (lit "a```b````c``") = lit "ab`c``"
  /\ replace_global (lit "aa") (lit "aaaaa") = lit "a".
Proof. split; vm_compute; reflexivity. Qed.

Example trim_both_ends :
  trim ([32; 9; 160] ++ lit "a b" ++ [LF; 13; 65279]) = lit "a b".
Proof. vm_compute. reflexivity. Qed.

Example encodeURIComponent_samples :
  encodeURIComponent (lit "a b&c/~'()" ++ [233; 8364; 55357; 56832])
    = Ok (lit "a%20b%26c%2F~'()%C3%A9%E2%82%AC%F0%9F%98%80")
  /\ encodeURIComponent [55357] = Throw URIError
  /\ encodeURIComponent [56832; 65] = Throw URIError.
Proof. repeat split; vm_compute; reflexivity. Qed.

Example QuoteJSONString_samples :
  QuoteJSONString ([97; DQUOTE; BACKSLASH; LF; 1; 55357; 56832; 55357; 65])
  = [DQUOTE; 97; BACKSLASH; DQUOTE; BACKSLASH; BACKSLASH; BACKSLASH; 110]
    ++ BACKSLASH :: lit "u0001" ++ [55357; 56832]
    ++ BACKSLASH :: lit "ud83dA" ++ [DQUOTE].
Proof. vm_compute. reflexivity. Qed.

Example ELITE_SYSTEM_PROMPT_length : List.length ELITE_SYSTEM_PROMPT = 892%nat.
Proof. vm_compute. reflexivity. Qed.

Example sequential_rejects_overlap :
  sequential [Invoke Primary; Invoke Secondary; Finish Secondary true;
              Finish Primary true] = false
  /\ (forall r,
        sequential [Invoke Primary; FetchStart r None; FetchStart r None;
                    FetchSettle r true 0; FetchSettle r true 0;
                    Finish Primary true] = false)
  /\ (forall r,
        sequential [Invoke Primary; FetchStart r None; FetchSettle r true 0;
                    FetchStart r None; FetchSettle r true 0;
                    Finish Primary true] = false).
Proof. repeat split. Qed.

(** X15.  The other side of the deadline: with the key set, a response
    that is due before the 1500 ms of the timer is not aborted; the timer is
    cleared and what [callGeminiDirect] yields is what the reading of that
    response yields. *)
Lemma response_in_time_is_read
  (w : world) (prompt : jsstring) (k : N) (ey : jsstring) (r : response) :
  NEXT_PUBLIC_GEMINI_API_KEY w = Some (k :: ey) ->
  latency (net w (gemini_request (k :: ey) prompt)) < GEMINI_TIMEOUT_MS ->
  settles (net w (gemini_request (k :: ey) prompt)) = Arrives r ->
  result_of (callGeminiDirect w prompt) = result_of (read_gemini r)
  /\ In TimerCleared (events_of (callGeminiDirect w prompt))
  /\ ~ In AbortFired (events_of (callGeminiDirect w prompt)).
Proof.
  intros Hkey Hearly Harrives.
  unfold result_of at 1, events_of. rewrite run_callGeminiDirect, Hkey. cbv zeta.
  assert (Hf : timer_fires_first GEMINI_TIMEOUT_MS
                 (net w (gemini_request (k :: ey) prompt)) = false).
  { unfold timer_fires_first. apply orb_false_iff. split.
    - apply N.ltb_ge. lia.
    - apply andb_false_iff. left. apply N.eqb_neq. lia. }
  rewrite Hf, Harrives. cbn [fst snd].
  split; [ reflexivity | split ].
  - cbn [app In]. auto 10.
  - cbn [app In]. intros [H|[H|[H|[H|[H|H]]]]]; try discriminate H.
    apply in_app_or in H. destruct H as [H|[H|[]]]; [ | discriminate H ].
    apply body_events_only_reads in H. destruct H as (f & ms & H). discriminate H.
Qed.

(** ** The parser *)

(** C8.  On the raw text made of a fence tagged json, a line feed, the
    object text with keys hook, offer, callToAction and values H, O, C, a
    line feed and a closing fence, [parseResponse] strips both fences, trims
    the line feeds and yields exactly the object
    {hook: H, offer: O, callToAction: C}. *)
Theorem parseResponse_strips_fences :
  replace_global (lit "```json") Scenario.fenced_copy
    = [LF] ++ Scenario.bare_copy ++ [LF] ++ lit "```"
  /\ replace_global (lit "```") ([LF] ++ Scenario.bare_copy ++ [LF] ++ lit "```")
    = [LF] ++ Scenario.bare_copy ++ [LF]
  /\ cleanText Scenario.fenced_copy = Scenario.bare_copy
  /\ parseResponse (Str Scenario.fenced_copy)
    = Ok (Obj [(lit "hook", Str (lit "H")); (lit "offer", Str (lit "O"));
               (lit "callToAction", Str (lit "C"))]).
Proof. repeat split; vm_compute; reflexivity. Qed.

(** C4.  [parseResponse] never signals failure: it returns a value on every
    input; on every string whose fence-stripped, trimmed form is not valid
    JSON that value is the fixed object with hook "Innovation meets
    Tradition. Perfect choice.", offer "Exclusive Member Pricing Applied"
    and cta "Explore Collection", which differs from the safe-mode object of
    the orchestrator; so whenever the primary call returns, the orchestrator
    returns what [parseResponse] makes of its text and the secondary
    provider function is never entered. *)
Theorem parseResponse_never_fails :
  (forall text, exists v, parseResponse text = Ok v)
  /\ (forall s e, JSON_parse (cleanText s) = Throw e ->
        parseResponse (Str s) = Ok PARSE_FALLBACK)
  /\ PARSE_FALLBACK
     = Obj [(lit "hook", Str (lit "Innovation meets Tradition. Perfect choice."));
            (lit "offer", Str (lit "Exclusive Member Pricing Applied"));
            (lit "cta", Str (lit "Explore Collection"))]
  /\ PARSE_FALLBACK <> SAFE_MODE
  /\ (forall w topic businessType text,
        result_of (callGeminiDirect w (userRequest topic businessType)) = Ok text ->
        result_of (generateMarketingCopy w topic businessType) = parseResponse text
        /\ calls Secondary (events_of (generateMarketingCopy w topic businessType)) = O
        /\ events_of (generateMarketingCopy w topic businessType)
           = events_of (callGeminiDirect w (userRequest topic businessType))).
Proof.
  split; [ exact parseResponse_total | ].
  split; [ intros s e H; rewrite parseResponse_string, H; reflexivity | ].
  split; [ reflexivity | ].
  split; [ intros H; vm_compute in H; discriminate H | ].
  intros w topic businessType text Hp.
  unfold result_of, events_of. rewrite run_generateMarketingCopy. cbv zeta.
  rewrite Hp. cbn [fst snd].
  repeat split.
  change (snd (run (callGeminiDirect w (userRequest topic businessType))))
    with (events_of (callGeminiDirect w (userRequest topic businessType))).
  unfold calls. now rewrite invocations_callGeminiDirect.
Qed.

Lemma parseResponse_never_fails_witness :
  parseResponse (Str Scenario.chatty) = Ok PARSE_FALLBACK
  /\ result_of (generateMarketingCopy Scenario.w_empty_object [] [])
     = parseResponse (Str (lit "{}"))
  /\ calls Secondary (events_of (generateMarketingCopy Scenario.w_empty_object [] [])) = O.
Proof.
  destruct parseResponse_never_fails as (_ & Hbad & _ & _ & Hshort).
  split.
  - apply (Hbad Scenario.chatty SyntaxError). vm_compute. reflexivity.
  - destruct (Hshort Scenario.w_empty_object [] [] (Str (lit "{}"))) as (Hr & Hc & _).
    + vm_compute. reflexivity.
    + split; assumption.
Defined.

(** ** The orchestrator *)

(** C3.  [generateMarketingCopy] is infallible at its boundary: in every
    world (whatever the key, and whether each request times out, fails to
    connect, is answered with a non-success status, with an unreadable body
    or with arbitrary text), for every topic and business type and from
    every log, it returns a value and does not throw. *)
Theorem generateMarketingCopy_infallible
  (w : world) (topic businessType : jsstring) (log : list event) :
  exists v log', generateMarketingCopy w topic businessType log = (Ok v, log').
Proof.
  rewrite (framed_generateMarketingCopy w topic businessType log).
  unfold result_of, events_of. rewrite run_generateMarketingCopy. cbv zeta.
  destruct (result_of (callGeminiDirect w (userRequest topic businessType)))
    as [text|err1].
  - destruct (parseResponse_total text) as [v Hv]. rewrite Hv. cbn [fst snd].
    now eexists; eexists.
  - destruct (result_of (callPollinationsText w (userRequest topic businessType)))
      as [text|err2].
    + destruct (parseResponse_total (Str text)) as [v Hv]. rewrite Hv.
      cbn [fst snd]. now eexists; eexists.
    + cbn [fst snd]. now eexists; eexists.
Qed.

(** C1, as stated, fails: with empty topic and business type, in the world
    where Gemini answers in time and the text of its candidate is an empty
    JSON object, the orchestrator returns that empty object, which has no
    hook (nor offer, nor callToAction). *)
Lemma returned_object_may_lack_fields :
  result_of (generateMarketingCopy Scenario.w_empty_object [] []) = Ok (Obj [])
  /\ nonempty_field (Obj []) "hook" = false
  /\ campaign_copy (Obj []) = false.
Proof. repeat split; vm_compute; reflexivity. Qed.

(** C1, amended.  For every topic and business type, empty strings
    included, and every world, [generateMarketingCopy] returns a value, and
    that value is the safe-mode object, or the fallback object of the
    parser (each of which has hook, offer and cta present and non-empty), or
    the JSON value parsed from the cleaned text of the engine that answered
    (the primary, or the secondary after the primary threw), returned as
    parsed. *)
Theorem generateMarketingCopy_returns_fallback_or_parsed
  (w : world) (topic businessType : jsstring) :
  let primary := callGeminiDirect w (userRequest topic businessType) in
  let secondary := callPollinationsText w (userRequest topic businessType) in
  (exists v,
     result_of (generateMarketingCopy w topic businessType) = Ok v
     /\ (v = SAFE_MODE
         \/ v = PARSE_FALLBACK
         \/ exists raw,
              (result_of primary = Ok (Str raw)
               \/ (is_ok (result_of primary) = false
                   /\ result_of secondary = Ok raw))
              /\ JSON_parse (cleanText raw) = Ok v))
  /\ hook_offer_cta SAFE_MODE = true
  /\ hook_offer_cta PARSE_FALLBACK = true.
Proof.
  cbv zeta. split; [ | split; vm_compute; reflexivity ].
  unfold result_of at 1. rewrite run_generateMarketingCopy. cbv zeta.
  destruct (result_of (callGeminiDirect w (userRequest topic businessType)))
    as [text|err1].
  - cbn [fst].
    destruct text as [ | | b | n | raw | items | props ];
      try (exists PARSE_FALLBACK; split; [ reflexivity | now right; left ]).
    rewrite parseResponse_string.
    destruct (JSON_parse (cleanText raw)) as [v|e] eqn:Hparse.
    + exists v. split; [ reflexivity | ].
      right; right. exists raw. split; [ now left | exact Hparse ].
    + exists PARSE_FALLBACK. split; [ reflexivity | now right; left ].
  - destruct (result_of (callPollinationsText w (userRequest topic businessType)))
      as [raw|err2].
    + cbn [fst]. rewrite parseResponse_string.
      destruct (JSON_parse (cleanText raw)) as [v|e] eqn:Hparse.
      * exists v. split; [ reflexivity | ].
        right; right. exists raw. split; [ right; now split | exact Hparse ].
      * exists PARSE_FALLBACK. split; [ reflexivity | now right; left ].
    + exists SAFE_MODE. split; [ reflexivity | now left ].
Qed.

(** C2, as stated, fails: for the topic Diwali and the business type Sweets,
    in the world where Gemini answers in time with the prose
    [Sure! Here's your campaign: ...], the primary call returns that text,
    which is not JSON; the parser does not signal failure but returns its
    fallback object, and the secondary provider function is never
    entered. *)
Lemma parse_failure_does_not_fall_back :
  result_of (callGeminiDirect Scenario.w_chatty_primary
               (userRequest (lit "Diwali") (lit "Sweets")))
    = Ok (Str Scenario.chatty)
  /\ JSON_parse (cleanText Scenario.chatty) = Throw SyntaxError
  /\ parseResponse (Str Scenario.chatty) = Ok PARSE_FALLBACK
  /\ result_of (generateMarketingCopy Scenario.w_chatty_primary
                  (lit "Diwali") (lit "Sweets"))
    = Ok PARSE_FALLBACK
  /\ invocations (events_of (generateMarketingCopy Scenario.w_chatty_primary
                               (lit "Diwali") (lit "Sweets")))
    = [Primary].
Proof. repeat split; vm_compute; reflexivity. Qed.

(** C2, amended.  If the primary call returns a string, the orchestrator
    returns what the parser makes of it and only the primary provider
    function is entered: when the cleaned text is not JSON the parser
    returns its fallback object instead of signalling failure, and when it
    is JSON the parsed value is returned as it is, whatever its fields. *)
Theorem primary_text_ends_orchestration
  (w : world) (topic businessType raw : jsstring) :
  result_of (callGeminiDirect w (userRequest topic businessType)) = Ok (Str raw) ->
  result_of (generateMarketingCopy w topic businessType)
    = match JSON_parse (cleanText raw) with
      | Ok parsed => Ok parsed
      | Throw _ => Ok PARSE_FALLBACK
      end
  /\ invocations (events_of (generateMarketingCopy w topic businessType)) = [Primary]
  /\ calls Secondary (events_of (generateMarketingCopy w topic businessType)) = O.
Proof.
  intros Hp.
  assert (Hinv : invocations (events_of (generateMarketingCopy w topic businessType))
                 = [Primary]).
  { unfold events_of at 1. rewrite run_generateMarketingCopy. cbv zeta.
    rewrite Hp. cbn [snd]. apply invocations_callGeminiDirect. }
  split; [ | split ].
  - unfold result_of at 1. rewrite run_generateMarketingCopy. cbv zeta.
    rewrite Hp. cbn [fst]. apply parseResponse_string.
  - exact Hinv.
  - unfold calls. rewrite Hinv. reflexivity.
Qed.

Lemma primary_text_ends_orchestration_witness :
  result_of (generateMarketingCopy Scenario.w_chatty_primary (lit "Diwali") (lit "Sweets"))
    = match JSON_parse (cleanText Scenario.chatty) with
      | Ok parsed => Ok parsed
      | Throw _ => Ok PARSE_FALLBACK
      end
  /\ invocations (events_of (generateMarketingCopy Scenario.w_chatty_primary
                               (lit "Diwali") (lit "Sweets"))) = [Primary]
  /\ calls Secondary (events_of (generateMarketingCopy Scenario.w_chatty_primary
                                   (lit "Diwali") (lit "Sweets"))) = O.
Proof.
  apply (primary_text_ends_orchestration Scenario.w_chatty_primary
           (lit "Diwali") (lit "Sweets") Scenario.chatty).
  vm_compute. reflexivity.
Defined.

(** Splits a statement about one orchestration into the cases of its two
    provider calls. *)
Ltac provider_cases w topic businessType :=
  unfold result_of, events_of;
  rewrite ?run_generateMarketingCopy; cbv zeta;
  unfold result_of, events_of;
  rewrite ?run_callGeminiDirect, ?run_callPollinationsText; cbv zeta;
  destruct (NEXT_PUBLIC_GEMINI_API_KEY w) as [[|?k ?ey]|];
  try destruct (timer_fires_first GEMINI_TIMEOUT_MS _);
  try destruct (settles (net w (gemini_request _ _))) as [|?r];
  try destruct (result_of (read_gemini _)) as [?text|?err];
  cbn [fst snd is_ok];
  try destruct (encodeURIComponent (brand_brief (userRequest topic businessType)))
    as [?encoded|?err];
  try destruct (settles (net w (pollinations_request _))) as [|?r];
  try destruct (result_of (read_pollinations _)) as [?text|?err];
  unfold body_events;
  repeat match goal with
         | |- context [ok ?r] => destruct (ok r)
         end;
  cbn [fst snd is_ok app].

(** C7.  In every orchestration the provider functions are entered in the
    order primary, secondary; the primary exactly once; the secondary not at
    all when the primary call returns and exactly once when it throws; the
    log is sequential (no provider function is entered while another is
    active, each invocation issues at most one request, and a request
    settles before anything else is started), so at most two requests are
    made and never two at a time. *)
Theorem tiers_run_once_in_order (w : world) (topic businessType : jsstring) :
  let evs := events_of (generateMarketingCopy w topic businessType) in
  let primary := result_of (callGeminiDirect w (userRequest topic businessType)) in
  invocations evs = (if is_ok primary then [Primary] else [Primary; Secondary])
  /\ calls Primary evs = 1%nat
  /\ calls Secondary evs = (if is_ok primary then 0%nat else 1%nat)
  /\ sequential evs = true
  /\ (fetch_starts evs <= 2)%nat.
Proof.
  cbv zeta. provider_cases w topic businessType;
    repeat split; try reflexivity; cbv [fetch_starts filter List.length]; lia.
Qed.

(** C5, as stated, fails on the name of the third field: with nothing
    reachable both provider calls throw and the orchestrator returns the
    safe-mode object, which has no callToAction (reading it gives
    undefined). *)
Lemma safe_mode_has_no_callToAction :
  is_ok (result_of (callGeminiDirect Scenario.w_offline (userRequest [] []))) = false
  /\ is_ok (result_of (callPollinationsText Scenario.w_offline (userRequest [] []))) = false
  /\ result_of (generateMarketingCopy Scenario.w_offline [] []) = Ok SAFE_MODE
  /\ get_member SAFE_MODE (lit "callToAction") = Ok Undefined
  /\ nonempty_field SAFE_MODE "callToAction" = false
  /\ campaign_copy SAFE_MODE = false.
Proof. repeat split; vm_compute; reflexivity. Qed.

(** C5, amended.  If both provider calls throw, [generateMarketingCopy]
    returns exactly the safe-mode object, one fixed value: hook "Redefine
    Excellence. Aaj hi shuru karein.", offer "Premium Launch Privilege: 20%
    Advantage", cta "Experience the Future"; its three fields hook, offer
    and cta are present and non-empty. *)
Theorem total_failure_returns_safe_mode
  (w : world) (topic businessType : jsstring) :
  is_ok (result_of (callGeminiDirect w (userRequest topic businessType))) = false ->
  is_ok (result_of (callPollinationsText w (userRequest topic businessType))) = false ->
  result_of (generateMarketingCopy w topic businessType) = Ok SAFE_MODE
  /\ SAFE_MODE
     = Obj [(lit "hook", Str (lit "Redefine Excellence. Aaj hi shuru karein."));
            (lit "offer", Str (lit "Premium Launch Privilege: 20% Advantage"));
            (lit "cta", Str (lit "Experience the Future"))]
  /\ hook_offer_cta SAFE_MODE = true.
Proof.
  intros Hp Hs. split; [ | split; vm_compute; reflexivity ].
  unfold result_of at 1. rewrite run_generateMarketingCopy. cbv zeta.
  destruct (result_of (callGeminiDirect w (userRequest topic businessType)));
    [ discriminate Hp | ].
  destruct (result_of (callPollinationsText w (userRequest topic businessType)));
    [ discriminate Hs | reflexivity ].
Qed.

Lemma total_failure_returns_safe_mode_witness :
  result_of (generateMarketingCopy Scenario.w_refused (lit "Diwali") (lit "Sweets"))
    = Ok SAFE_MODE
  /\ SAFE_MODE
     = Obj [(lit "hook", Str (lit "Redefine Excellence. Aaj hi shuru karein."));
            (lit "offer", Str (lit "Premium Launch Privilege: 20% Advantage"));
            (lit "cta", Str (lit "Experience the Future"))]
  /\ hook_offer_cta SAFE_MODE = true.
Proof.
  apply (total_failure_returns_safe_mode Scenario.w_refused (lit "Diwali") (lit "Sweets"));
    vm_compute; reflexivity.
Defined.





(** X17.  With the key set, once a response with a success status has
    arrived before the timer fires, the timer is cleared and the body is
    read with no deadline left: the network time of the primary call is the
    latency plus the body delay, whatever that is. *)
Lemma primary_call_reads_body_without_deadline
  (w : world) (prompt : jsstring) (k : N) (ey : jsstring) (r : response) :
  NEXT_PUBLIC_GEMINI_API_KEY w = Some (k :: ey) ->
  timer_fires_first 1500 (net w (gemini_request (k :: ey) prompt)) = false ->
  settles (net w (gemini_request (k :: ey) prompt)) = Arrives r ->
  ok r = true ->
  events_of (callGeminiDirect w prompt)
  = [Invoke Primary; TimerSet 1500;
     FetchStart (gemini_request (k :: ey) prompt) (Some 1500);
     FetchSettle (gemini_request (k :: ey) prompt) true
       (latency (net w (gemini_request (k :: ey) prompt)));
     TimerCleared;
     BodyRead (match payload r with Some _ => true | None => false end)
       (body_delay r);
     Finish Primary (is_ok (result_of (read_gemini r)))]
  /\ elapsed_ms (events_of (callGeminiDirect w prompt))
     = latency (net w (gemini_request (k :: ey) prompt)) + body_delay r.
Proof.
  intros Hkey Hf Hs Hok.
  assert (Hev : events_of (callGeminiDirect w prompt)
                = [Invoke Primary; TimerSet 1500;
                   FetchStart (gemini_request (k :: ey) prompt) (Some 1500);
                   FetchSettle (gemini_request (k :: ey) prompt) true
                     (latency (net w (gemini_request (k :: ey) prompt)));
                   TimerCleared;
                   BodyRead (match payload r with Some _ => true | None => false end)
                     (body_delay r);
                   Finish Primary (is_ok (result_of (read_gemini r)))]).
  { unfold events_of. rewrite run_callGeminiDirect, Hkey. cbv zeta.
    change GEMINI_TIMEOUT_MS with 1500. rewrite Hf, Hs.
    unfold body_events. rewrite Hok. reflexivity. }
  split; [ exact Hev | ].
  rewrite Hev. cbn [elapsed_ms]. lia.
Qed.

Lemma primary_call_reads_body_without_deadline_witness :
  elapsed_ms (events_of (callGeminiDirect Scenario.w_slow_body (userRequest [] [])))
  = 200 + 60000.
Proof.
  destruct (primary_call_reads_body_without_deadline Scenario.w_slow_body
              (userRequest [] []) 116 (lit "est-key")
              {| status := 200;
                 payload := Some (Scenario.gemini_envelope Scenario.bare_copy);
                 body_delay := 60000 |})
    as [_ Hms]; [ reflexivity .. | exact Hms ].
Defined.




(** C9.  When the key is set and the primary request ends in a deadline
    expiry, a connection error or a non-success status, the primary call
    throws (on a non-success status the error Google Blocked), and in all
    three cases alike the orchestrator enters the secondary provider
    function next and returns what the secondary call yields: its parsed text
    or, when it throws, the safe-mode object.  When the secondary request in
    turn ends in a connection error or a non-success status, the secondary
    call throws (on a non-success status the error Backup Failed) and the
    result is the safe-mode object. *)
Theorem transport_failures_advance
  (w : world) (topic businessType : jsstring) (k : N) (ey : jsstring) :
  NEXT_PUBLIC_GEMINI_API_KEY w = Some (k :: ey) ->
  transport_failed
    (transport_of (Some GEMINI_TIMEOUT_MS)
       (net w (gemini_request (k :: ey) (userRequest topic businessType)))) = true ->
  let req := gemini_request (k :: ey) (userRequest topic businessType) in
  let primary := callGeminiDirect w (userRequest topic businessType) in
  let secondary := callPollinationsText w (userRequest topic businessType) in
  (exists e, result_of primary = Throw e)
  /\ (forall code,
        transport_of (Some GEMINI_TIMEOUT_MS) (net w req) = BadStatus code ->
        result_of primary = Throw (JsError (lit "Google Blocked")))
  /\ invocations (events_of (generateMarketingCopy w topic businessType))
     = [Primary; Secondary]
  /\ result_of (generateMarketingCopy w topic businessType)
     = match result_of secondary with
       | Ok text => parseResponse (Str text)
       | Throw _ => Ok SAFE_MODE
       end
  /\ (forall encoded,
        encodeURIComponent (brand_brief (userRequest topic businessType)) = Ok encoded ->
        transport_failed
          (transport_of None (net w (pollinations_request encoded))) = true ->
        (exists e, result_of secondary = Throw e)
        /\ (forall code,
              transport_of None (net w (pollinations_request encoded)) = BadStatus code ->
              result_of secondary = Throw (JsError (lit "Backup Failed")))
        /\ result_of (generateMarketingCopy w topic businessType) = Ok SAFE_MODE).
Proof.
  intros Hkey Hfail. cbv zeta.
  set (req := gemini_request (k :: ey) (userRequest topic businessType)) in *.
  assert (Hp : (exists e, result_of (callGeminiDirect w (userRequest topic businessType))
                          = Throw e)
               /\ (forall code,
                     transport_of (Some GEMINI_TIMEOUT_MS) (net w req) = BadStatus code ->
                     result_of (callGeminiDirect w (userRequest topic businessType))
                     = Throw (JsError (lit "Google Blocked")))).
  { unfold result_of. rewrite run_callGeminiDirect, Hkey. cbv zeta. fold req.
    unfold transport_of in *.
    destruct (timer_fires_first GEMINI_TIMEOUT_MS (net w req)).
    - split; [ now eexists | discriminate ].
    - destruct (settles (net w req)) as [|r].
      + split; [ now eexists | discriminate ].
      + destruct (ok r) eqn:Hok; [ discriminate Hfail | ].
        unfold result_of, run, read_gemini. rewrite Hok. cbn [negb fst throw].
        split; [ now eexists | reflexivity ]. }
  destruct Hp as [[e He] Hblocked].
  assert (Hgen : run (generateMarketingCopy w topic businessType)
                 = match result_of (callPollinationsText w (userRequest topic businessType)) with
                   | Ok text =>
                       (parseResponse (Str text),
                        events_of (callGeminiDirect w (userRequest topic businessType))
                        ++ events_of (callPollinationsText w (userRequest topic businessType)))
                   | Throw _ =>
                       (Ok SAFE_MODE,
                        events_of (callGeminiDirect w (userRequest topic businessType))
                        ++ events_of (callPollinationsText w (userRequest topic businessType)))
                   end).
  { rewrite run_generateMarketingCopy. cbv zeta. rewrite He. reflexivity. }
  split; [ now exists e | ].
  split; [ exact Hblocked | ].
  split; [ | split ].
  - unfold events_of at 1. rewrite Hgen.
    destruct (result_of (callPollinationsText w (userRequest topic businessType)));
      cbn [snd]; rewrite invocations_app;
      rewrite invocations_callGeminiDirect, invocations_callPollinationsText;
      reflexivity.
  - unfold result_of at 1. rewrite Hgen.
    destruct (result_of (callPollinationsText w (userRequest topic businessType)));
      reflexivity.
  - intros encoded Henc Hfail2.
    assert (Hs : (exists e2, result_of (callPollinationsText w (userRequest topic businessType))
                             = Throw e2)
                 /\ (forall code,
                       transport_of None (net w (pollinations_request encoded))
                       = BadStatus code ->
                       result_of (callPollinationsText w (userRequest topic businessType))
                       = Throw (JsError (lit "Backup Failed")))).
    { unfold result_of. rewrite run_callPollinationsText, Henc. cbv zeta.
      unfold transport_of in *.
      destruct (settles (net w (pollinations_request encoded))) as [|r].
      - split; [ now eexists | discriminate ].
      - destruct (ok r) eqn:Hok; [ discriminate Hfail2 | ].
        unfold result_of, run, read_pollinations. rewrite Hok. cbn [negb fst throw].
        split; [ now eexists | reflexivity ]. }
    destruct Hs as [[e2 He2] Hbackup].
    split; [ now exists e2 | ].
    split; [ exact Hbackup | ].
    unfold result_of at 1. rewrite Hgen, He2. reflexivity.
Qed.

Lemma transport_failures_advance_witness :
  result_of (callGeminiDirect Scenario.w_refused (userRequest (lit "Diwali") (lit "Sweets")))
    = Throw (JsError (lit "Google Blocked"))
  /\ invocations (events_of (generateMarketingCopy Scenario.w_refused
                               (lit "Diwali") (lit "Sweets")))
     = [Primary; Secondary]
  /\ result_of (generateMarketingCopy Scenario.w_refused (lit "Diwali") (lit "Sweets"))
     = Ok SAFE_MODE.
Proof.
  destruct (transport_failures_advance Scenario.w_refused
              (lit "Diwali") (lit "Sweets") 116 (lit "est-key"))
    as (_ & Hblocked & Hinv & _ & Hsecond).
  - reflexivity.
  - vm_compute. reflexivity.
  - split; [ | split ].
    + apply (Hblocked 429). vm_compute. reflexivity.
    + exact Hinv.
    + destruct (encodeURIComponent
                  (brand_brief (userRequest (lit "Diwali") (lit "Sweets"))))
        as [encoded|e] eqn:Henc; [ | vm_compute in Henc; discriminate Henc ].
      destruct (Hsecond encoded eq_refl) as (_ & _ & Hsafe);
        [ reflexivity | exact Hsafe ].
Defined.

(** C10.  The orchestrator keeps nothing between requests.  Two invocations
    with the same topic and business type, started from any two logs, in two
    worlds that agree on the key and on what the network does with the two
    requests this invocation can make (they may differ anywhere else),
    return equal results and append equal events. *)
Theorem generateMarketingCopy_stateless
  (w1 w2 : world) (topic businessType : jsstring) (log1 log2 : list event) :
  NEXT_PUBLIC_GEMINI_API_KEY w1 = NEXT_PUBLIC_GEMINI_API_KEY w2 ->
  (forall key,
     NEXT_PUBLIC_GEMINI_API_KEY w1 = Some key ->
     net w1 (gemini_request key (userRequest topic businessType))
     = net w2 (gemini_request key (userRequest topic businessType))) ->
  (forall encoded,
     encodeURIComponent (brand_brief (userRequest topic businessType)) = Ok encoded ->
     net w1 (pollinations_request encoded) = net w2 (pollinations_request encoded)) ->
  fst (generateMarketingCopy w1 topic businessType log1)
  = fst (generateMarketingCopy w2 topic businessType log2)
  /\ exists evs,
       snd (generateMarketingCopy w1 topic businessType log1) = log1 ++ evs
       /\ snd (generateMarketingCopy w2 topic businessType log2) = log2 ++ evs.
Proof.
  intros Hkey Hprimary Hsecondary.
  assert (Hp : run (callGeminiDirect w1 (userRequest topic businessType))
               = run (callGeminiDirect w2 (userRequest topic businessType))).
  { rewrite !run_callGeminiDirect. rewrite <- Hkey.
    destruct (NEXT_PUBLIC_GEMINI_API_KEY w1) as [[|k ey]|] eqn:Hk; try reflexivity.
    cbv zeta. rewrite (Hprimary (k :: ey) eq_refl). reflexivity. }
  assert (Hs : run (callPollinationsText w1 (userRequest topic businessType))
               = run (callPollinationsText w2 (userRequest topic businessType))).
  { rewrite !run_callPollinationsText.
    destruct (encodeURIComponent (brand_brief (userRequest topic businessType)))
      as [encoded|e] eqn:Henc; [ | reflexivity ].
    cbv zeta. rewrite (Hsecondary encoded eq_refl). reflexivity. }
  assert (Hrun : run (generateMarketingCopy w1 topic businessType)
                 = run (generateMarketingCopy w2 topic businessType)).
  { rewrite !run_generateMarketingCopy. cbv zeta.
    unfold result_of, events_of. rewrite Hp, Hs. reflexivity. }
  rewrite (framed_generateMarketingCopy w1 topic businessType log1).
  rewrite (framed_generateMarketingCopy w2 topic businessType log2).
  unfold result_of, events_of. rewrite Hrun. cbn [fst snd].
  split; [ reflexivity | ].
  exists (snd (run (generateMarketingCopy w2 topic businessType))).
  split; reflexivity.
Qed.

Lemma generateMarketingCopy_stateless_witness :
  fst (generateMarketingCopy Scenario.w_slow_primary (lit "Diwali") (lit "Sweets") [])
  = fst (generateMarketingCopy Scenario.w_slow_primary' (lit "Diwali") (lit "Sweets")
           [Invoke Primary; Finish Primary false; Invoke Secondary; Finish Secondary false])
  /\ exists evs,
       snd (generateMarketingCopy Scenario.w_slow_primary (lit "Diwali") (lit "Sweets") [])
       = [] ++ evs
       /\ snd (generateMarketingCopy Scenario.w_slow_primary' (lit "Diwali") (lit "Sweets")
                 [Invoke Primary; Finish Primary false; Invoke Secondary;
                  Finish Secondary false])
          = [Invoke Primary; Finish Primary false; Invoke Secondary;
             Finish Secondary false] ++ evs.
Proof.
  apply (generateMarketingCopy_stateless Scenario.w_slow_primary Scenario.w_slow_primary').
  - reflexivity.
  - intros key Hk. vm_compute in Hk. injection Hk as <-. vm_compute. reflexivity.
  - intros encoded _. reflexivity.
Defined.

(** ** [encodeURIComponent]: when it throws and what it can produce *)

Lemma uri_unreserved_ascii (c : N) : uri_unreserved c = true -> c <= 126.
Proof.
  unfold uri_unreserved, is_alnum.
  rewrite !orb_true_iff, !andb_true_iff, !N.leb_le, !N.eqb_eq. lia.
Qed.

Lemma uri_unreserved_not_surrogate (c : N) :
  uri_unreserved c = true ->
  is_lead_surrogate c = false /\ is_trail_surrogate c = false.
Proof.
  intros H. apply uri_unreserved_ascii in H.
  unfold is_lead_surrogate, is_trail_surrogate.
  split; apply andb_false_iff; left; apply N.leb_gt; lia.
Qed.

Lemma is_ok_prepend (pre : jsstring) (r : outcome jsstring) :
  is_ok (prepend pre r) = is_ok r.
Proof. now destruct r. Qed.

Lemma encode_units_ok (s : jsstring) (pending : option N) :
  is_ok (encode_units pending s)
  = well_formed_from (match pending with Some _ => true | None => false end) s.
Proof.
  revert pending. induction s as [|c s IH]; intros [lead|]; cbn [encode_units well_formed_from].
  - reflexivity.
  - reflexivity.
  - destruct (is_trail_surrogate c); [ | reflexivity ].
    rewrite is_ok_prepend. apply (IH None).
  - destruct (uri_unreserved c) eqn:Hu.
    + destruct (uri_unreserved_not_surrogate c Hu) as [-> ->].
      rewrite is_ok_prepend. apply (IH None).
    + destruct (is_lead_surrogate c); [ apply (IH (Some c)) | ].
      destruct (is_trail_surrogate c); [ reflexivity | ].
      rewrite is_ok_prepend. apply (IH None).
Qed.

Lemma encodeURIComponent_ok (s : jsstring) :
  is_ok (encodeURIComponent s) = well_formed s.
Proof. apply (encode_units_ok s None). Qed.

Lemma encodeURIComponent_throws (s : jsstring) :
  well_formed s = false -> encodeURIComponent s = Throw URIError.
Proof.
  intros H. rewrite <- encodeURIComponent_ok in H.
  unfold encodeURIComponent in *. revert H. generalize (@None N).
  induction s as [|c s IH]; intros [lead|]; cbn [encode_units]; intros H;
    try reflexivity; try discriminate H.
  - destruct (is_trail_surrogate c); [ | reflexivity ].
    rewrite is_ok_prepend in H. now rewrite (IH None H).
  - destruct (uri_unreserved c).
    + rewrite is_ok_prepend in H. now rewrite (IH None H).
    + destruct (is_lead_surrogate c); [ exact (IH (Some c) H) | ].
      destruct (is_trail_surrogate c); [ reflexivity | ].
      rewrite is_ok_prepend in H. now rewrite (IH None H).
Qed.

(** A text without surrogates in front does not change whether the rest is
    well formed. *)
Lemma well_formed_plain_prefix (a b : jsstring) :
  forallb plain a = true ->
  well_formed_from false (a ++ b) = well_formed_from false b.
Proof.
  induction a as [|c a IH]; intros H; [ reflexivity | ].
  cbn [forallb] in H. apply andb_true_iff in H. destruct H as [Hc Ha].
  unfold plain in Hc. apply andb_true_iff in Hc. destruct Hc as [Hl Ht].
  apply negb_true_iff in Hl, Ht.
  cbn [app well_formed_from]. rewrite Hl, Ht. cbn [negb andb]. now apply IH.
Qed.

Lemma well_formed_before_plain (a b : jsstring) (c : N) (pending : bool) :
  plain c = true ->
  well_formed_from pending (a ++ c :: b)
  = well_formed_from pending a && well_formed_from false (c :: b).
Proof.
  intros Hc. revert pending. induction a as [|x a IH]; intros pending.
  - unfold plain in Hc. apply andb_true_iff in Hc. destruct Hc as [Hl Ht].
    apply negb_true_iff in Hl, Ht.
    cbn [app well_formed_from]. rewrite Hl, Ht.
    now destruct pending.
  - cbn [app well_formed_from].
    destruct pending.
    + rewrite IH. now rewrite andb_assoc.
    + destruct (is_lead_surrogate x); [ apply IH | ].
      rewrite IH. now rewrite andb_assoc.
Qed.

Lemma well_formed_nil_suffix (a : jsstring) (pending : bool) :
  well_formed_from pending (a ++ []) = well_formed_from pending a.
Proof. now rewrite app_nil_r. Qed.

Lemma well_formed_split (a p b : jsstring) (pending : bool) :
  forallb plain p = true -> p <> [] ->
  well_formed_from pending (a ++ p ++ b)
  = well_formed_from pending a && well_formed_from false b.
Proof.
  intros Hp Hne. destruct p as [|c p]; [ contradiction | ].
  pose proof Hp as Hp'. cbn [forallb] in Hp'.
  apply andb_true_iff in Hp'. destruct Hp' as [Hc _].
  change (a ++ (c :: p) ++ b) with (a ++ c :: (p ++ b)).
  rewrite (well_formed_before_plain a (p ++ b) c pending Hc).
  change (c :: p ++ b) with ((c :: p) ++ b).
  now rewrite (well_formed_plain_prefix (c :: p) b Hp).
Qed.

Lemma poster_prompt_well_formed (topic businessType : jsstring) :
  well_formed (poster_prompt topic businessType)
  = well_formed topic && well_formed businessType.
Proof.
  unfold well_formed, poster_prompt.
  rewrite well_formed_plain_prefix by reflexivity.
  rewrite well_formed_split by (reflexivity || discriminate).
  f_equal.
  rewrite <- (app_nil_r (lit ", luxury studio lighting, 8k resolution, highly detailed masterpiece, sharp focus")).
  rewrite well_formed_split by (reflexivity || discriminate).
  apply andb_true_r.
Qed.

Lemma brand_brief_well_formed (topic businessType : jsstring) :
  well_formed (brand_brief (userRequest topic businessType))
  = well_formed topic && well_formed businessType.
Proof.
  unfold well_formed, brand_brief, userRequest.
  rewrite well_formed_plain_prefix by (vm_compute; reflexivity).
  rewrite well_formed_plain_prefix by reflexivity.
  rewrite well_formed_plain_prefix by reflexivity.
  rewrite well_formed_plain_prefix by reflexivity.
  rewrite well_formed_split by (reflexivity || discriminate).
  apply andb_comm.
Qed.

Lemma is_alnum_url_safe (c : N) : is_alnum c = true -> url_safe c = true.
Proof. intros H. unfold url_safe, uri_unreserved. now rewrite H. Qed.

Lemma hex_upper_url_safe (d : N) : d < 16 -> url_safe (hex_upper d) = true.
Proof.
  intros Hd. apply is_alnum_url_safe. unfold hex_upper, is_alnum.
  destruct (d <? 10) eqn:H10.
  - apply N.ltb_lt in H10. apply orb_true_iff. left. apply orb_true_iff. left.
    apply andb_true_iff. split; apply N.leb_le; lia.
  - apply N.ltb_ge in H10. apply orb_true_iff. left. apply orb_true_iff. right.
    apply andb_true_iff. split; apply N.leb_le; lia.
Qed.

Lemma percent_url_safe (byte : N) :
  byte < 256 -> forallb url_safe (percent byte) = true.
Proof.
  intros Hb. unfold percent. cbn [forallb].
  rewrite (hex_upper_url_safe (byte / 16))
    by (apply N.Div0.div_lt_upper_bound; lia).
  rewrite (hex_upper_url_safe (byte mod 16)) by (apply N.mod_lt; lia).
  reflexivity.
Qed.

Lemma utf8_bytes (cp : N) :
  cp < 1114112 -> Forall (fun byte => byte < 256) (utf8 cp).
Proof.
  intros Hcp. unfold utf8.
  assert (H64 : forall x, 128 + x mod 64 < 256)
    by (intros x; pose proof (N.mod_lt x 64); lia).
  destruct (cp <? 128) eqn:H1; [ apply N.ltb_lt in H1; repeat constructor; lia | ].
  destruct (cp <? 2048) eqn:H2.
  { apply N.ltb_lt in H2. repeat constructor; [ | apply H64 ].
    pose proof (N.Div0.div_lt_upper_bound cp 64 32). lia. }
  destruct (cp <? 65536) eqn:H3.
  { apply N.ltb_lt in H3. repeat constructor; try apply H64.
    pose proof (N.Div0.div_lt_upper_bound cp 4096 16). lia. }
  repeat constructor; try apply H64.
  pose proof (N.Div0.div_lt_upper_bound cp 262144 5). lia.
Qed.

Lemma utf8_url_safe (cp : N) :
  cp < 1114112 -> forallb url_safe (flat_map percent (utf8 cp)) = true.
Proof.
  intros Hcp. pose proof (utf8_bytes cp Hcp) as Hb.
  induction Hb as [|byte bytes Hbyte _ IH]; [ reflexivity | ].
  cbn [flat_map]. rewrite forallb_app, IH, percent_url_safe by assumption.
  reflexivity.
Qed.

Lemma code_point_bound (lead trail : N) :
  is_lead_surrogate lead = true -> is_trail_surrogate trail = true ->
  code_point lead trail < 1114112.
Proof.
  unfold is_lead_surrogate, is_trail_surrogate, code_point.
  rewrite !andb_true_iff, !N.leb_le. lia.
Qed.

Lemma encode_units_url_safe (s e : jsstring) (pending : option N) :
  code_units s = true ->
  match pending with
  | Some lead => is_lead_surrogate lead = true
  | None => True
  end ->
  encode_units pending s = Ok e ->
  forallb url_safe e = true.
Proof.
  revert e pending. induction s as [|c s IH]; intros e pending Hs Hp He.
  - cbn [encode_units] in He. destruct pending; [ discriminate He | ].
    injection He as <-. reflexivity.
  - unfold code_units in Hs. cbn [forallb] in Hs.
    apply andb_true_iff in Hs. destruct Hs as [Hc Hs]. apply N.ltb_lt in Hc.
    cbn [encode_units] in He.
    destruct pending as [lead|].
    + destruct (is_trail_surrogate c) eqn:Ht; [ | discriminate He ].
      destruct (encode_units None s) as [e'|] eqn:He'; [ | discriminate He ].
      cbn [prepend] in He. injection He as <-.
      rewrite forallb_app, (IH e' None Hs I He').
      now rewrite utf8_url_safe by (now apply code_point_bound).
    + destruct (uri_unreserved c) eqn:Hu.
      * destruct (encode_units None s) as [e'|] eqn:He'; [ | discriminate He ].
        cbn [prepend] in He. injection He as <-.
        cbn [app forallb]. unfold url_safe at 1. rewrite Hu.
        exact (IH e' None Hs I He').
      * destruct (is_lead_surrogate c) eqn:Hl.
        { exact (IH e (Some c) Hs Hl He). }
        destruct (is_trail_surrogate c); [ discriminate He | ].
        destruct (encode_units None s) as [e'|] eqn:He'; [ | discriminate He ].
        cbn [prepend] in He. injection He as <-.
        rewrite forallb_app, (IH e' None Hs I He').
        now rewrite utf8_url_safe by lia.
Qed.

Lemma uint_digits_are_digits (u : Decimal.uint) :
  forallb is_digit (uint_digits u) = true.
Proof. induction u; cbn [uint_digits forallb]; try rewrite IHu; reflexivity. Qed.

Lemma code_units_app (a b : jsstring) :
  code_units (a ++ b) = code_units a && code_units b.
Proof. apply forallb_app. Qed.

Lemma url_safe_excludes (c : N) :
  url_safe c = true ->
  c <> 63 /\ c <> 38 /\ c <> 35 /\ c <> 47 /\ c <> 61 /\ c <> 32.
Proof. intros H. repeat split; intros ->; vm_compute in H; discriminate H. Qed.

Lemma url_safe_not_in (e : jsstring) (c : N) :
  forallb url_safe e = true -> url_safe c = false -> ~ In c e.
Proof.
  intros He Hc Hin. rewrite forallb_forall in He.
  specialize (He c Hin). congruence.
Qed.

(** ** [generatePoster] *)

(** X1.  [generatePoster] throws a [URIError], whatever the seed and the
    engine, when the topic or the business type holds a surrogate without its
    partner. *)
Theorem generatePoster_throws_on_lone_surrogate
  (seed : N) (topic businessType : jsstring) (e : engine) :
  well_formed topic && well_formed businessType = false ->
  generatePoster seed topic businessType e = Throw URIError.
Proof.
  intros H. unfold generatePoster.
  rewrite encodeURIComponent_throws; [ reflexivity | ].
  now rewrite poster_prompt_well_formed.
Qed.

Lemma generatePoster_throws_on_lone_surrogate_witness :
  generatePoster 42 [68; 55357] (lit "Sweets") Flux = Throw URIError.
Proof.
  apply (generatePoster_throws_on_lone_surrogate 42 [68; 55357] (lit "Sweets") Flux).
  reflexivity.
Defined.

(** X2.  For a topic and a business type that are well-formed sequences of
    16-bit code units, [generatePoster] returns a URL made of the fixed
    prefix, the encoded prompt, and the fixed query of the chosen engine
    with the digits of the seed; the encoded prompt holds only unreserved
    characters and percent escapes, hence none of ? & # / = or a space: what
    the caller passes cannot alter the path or the query. *)
Theorem generatePoster_url_is_safe
  (seed : N) (topic businessType : jsstring) (e : engine) :
  code_units topic = true -> code_units businessType = true ->
  well_formed topic = true -> well_formed businessType = true ->
  exists encoded,
    encodeURIComponent (poster_prompt topic businessType) = Ok encoded
    /\ forallb url_safe encoded = true
    /\ (~ In 63 encoded /\ ~ In 38 encoded /\ ~ In 35 encoded
        /\ ~ In 47 encoded /\ ~ In 61 encoded /\ ~ In 32 encoded)
    /\ forallb is_digit (decimal seed) = true
    /\ generatePoster seed topic businessType e
       = Ok (match e with
             | Turbo =>
                 lit "https://pollinations.ai/p/" ++ encoded
                 ++ lit "?width=1080&height=1080&model=turbo&seed=" ++ decimal seed
                 ++ lit "&nologo=true"
             | Flux =>
                 lit "https://pollinations.ai/p/" ++ encoded
                 ++ lit "?width=1080&height=1080&model=flux&seed=" ++ decimal seed
                 ++ lit "&nologo=true&enhance=true"
             end).
Proof.
  intros Hct Hcb Hwt Hwb.
  assert (Hwf : is_ok (encodeURIComponent (poster_prompt topic businessType)) = true).
  { rewrite encodeURIComponent_ok, poster_prompt_well_formed, Hwt, Hwb. reflexivity. }
  destruct (encodeURIComponent (poster_prompt topic businessType)) as [encoded|err] eqn:Henc;
    [ | discriminate Hwf ].
  assert (Hsafe : forallb url_safe encoded = true).
  { apply (encode_units_url_safe (poster_prompt topic businessType) encoded None);
      [ | exact I | exact Henc ].
    unfold poster_prompt. rewrite !code_units_app, Hct, Hcb. reflexivity. }
  exists encoded. split; [ reflexivity | ]. split; [ exact Hsafe | ].
  split; [ repeat split; apply (url_safe_not_in encoded); auto | ].
  split; [ apply uint_digits_are_digits | ].
  unfold generatePoster. rewrite Henc. now destruct e.
Qed.

Lemma generatePoster_url_is_safe_witness :
  exists encoded,
    encodeURIComponent (poster_prompt (lit "50% off? yes/no") (lit "Sweets & Co")) = Ok encoded
    /\ ~ In 63 encoded /\ ~ In 38 encoded /\ ~ In 47 encoded.
Proof.
  destruct (generatePoster_url_is_safe 7 (lit "50% off? yes/no") (lit "Sweets & Co") Flux)
    as (encoded & Henc & _ & (Hq & Ha & _ & Hs & _) & _); try reflexivity.
  exists encoded. repeat split; assumption.
Defined.

(** ** More on the two engines *)

Lemma brand_brief_code_units (topic businessType : jsstring) :
  code_units topic = true -> code_units businessType = true ->
  code_units (brand_brief (userRequest topic businessType)) = true.
Proof.
  intros Ht Hb. unfold brand_brief, userRequest.
  rewrite !code_units_app, Ht, Hb. vm_compute. reflexivity.
Qed.

(** X3.  When the topic or the business type holds a surrogate without its
    partner, [callPollinationsText] throws a [URIError] before any request
    is made; so if the primary call fails as well, the orchestrator returns
    the safe-mode object without the secondary engine ever being
    contacted. *)
Theorem ill_formed_text_never_reaches_pollinations
  (w : world) (topic businessType : jsstring) :
  well_formed topic && well_formed businessType = false ->
  run (callPollinationsText w (userRequest topic businessType))
    = (Throw URIError, [Invoke Secondary; Finish Secondary false])
  /\ (is_ok (result_of (callGeminiDirect w (userRequest topic businessType))) = false ->
      result_of (generateMarketingCopy w topic businessType) = Ok SAFE_MODE).
Proof.
  intros H.
  assert (Hrun : run (callPollinationsText w (userRequest topic businessType))
                 = (Throw URIError, [Invoke Secondary; Finish Secondary false])).
  { rewrite run_callPollinationsText, encodeURIComponent_throws; [ reflexivity | ].
    now rewrite brand_brief_well_formed. }
  split; [ exact Hrun | ].
  intros Hp. unfold result_of at 1. rewrite run_generateMarketingCopy. cbv zeta.
  destruct (result_of (callGeminiDirect w (userRequest topic businessType)));
    [ discriminate Hp | ].
  unfold result_of. rewrite Hrun. reflexivity.
Qed.

Lemma ill_formed_text_never_reaches_pollinations_witness :
  run (callPollinationsText Scenario.w_slow_primary (userRequest [56832] (lit "Sweets")))
    = (Throw URIError, [Invoke Secondary; Finish Secondary false])
  /\ result_of (generateMarketingCopy Scenario.w_slow_primary [56832] (lit "Sweets"))
     = Ok SAFE_MODE.
Proof.
  destruct (ill_formed_text_never_reaches_pollinations
              Scenario.w_slow_primary [56832] (lit "Sweets")) as [Hrun Hsafe].
  - reflexivity.
  - split; [ exact Hrun | ]. apply Hsafe. vm_compute. reflexivity.
Defined.

(** X4.  For a topic and a business type that are well-formed sequences of
    16-bit code units, [callPollinationsText] makes exactly one request: a
    GET without body, headers or abort signal, to the address made of the
    host, the encoded brief and the fixed query; the encoded brief holds
    none of ? & # / = or a space. *)
Theorem pollinations_request_is_safe
  (w : world) (topic businessType : jsstring) :
  code_units topic = true -> code_units businessType = true ->
  well_formed topic = true -> well_formed businessType = true ->
  exists encoded,
    encodeURIComponent (brand_brief (userRequest topic businessType)) = Ok encoded
    /\ (~ In 63 encoded /\ ~ In 38 encoded /\ ~ In 35 encoded
        /\ ~ In 47 encoded /\ ~ In 61 encoded /\ ~ In 32 encoded)
    /\ filter (fun e => match e with FetchStart _ _ => true | _ => false end)
         (events_of (callPollinationsText w (userRequest topic businessType)))
       = [FetchStart
            {| req_url := lit "https://text.pollinations.ai/" ++ encoded
                          ++ lit "?model=openai&json=true";
               req_method := GET; req_headers := []; req_body := None |}
            None].
Proof.
  intros Hct Hcb Hwt Hwb.
  assert (Hwf : is_ok (encodeURIComponent (brand_brief (userRequest topic businessType)))
                = true).
  { rewrite encodeURIComponent_ok, brand_brief_well_formed, Hwt, Hwb. reflexivity. }
  destruct (encodeURIComponent (brand_brief (userRequest topic businessType)))
    as [encoded|err] eqn:Henc; [ | discriminate Hwf ].
  assert (Hsafe : forallb url_safe encoded = true).
  { apply (encode_units_url_safe (brand_brief (userRequest topic businessType)) encoded None);
      [ now apply brand_brief_code_units | exact I | exact Henc ]. }
  exists encoded. split; [ reflexivity | ].
  split; [ repeat split; apply (url_safe_not_in encoded); auto | ].
  unfold events_of. rewrite run_callPollinationsText, Henc. cbv zeta.
  destruct (settles (net w (pollinations_request encoded))) as [|r];
    [ reflexivity | ].
  unfold body_events. destruct (ok r); reflexivity.
Qed.

Lemma pollinations_request_is_safe_witness :
  exists encoded,
    encodeURIComponent (brand_brief (userRequest (lit "a?b=c") (lit "x/y&z"))) = Ok encoded
    /\ ~ In 63 encoded /\ ~ In 38 encoded /\ ~ In 47 encoded.
Proof.
  destruct (pollinations_request_is_safe Scenario.w_offline (lit "a?b=c") (lit "x/y&z"))
    as (encoded & Henc & (Hq & Ha & _ & Hs & _) & _); try reflexivity.
  exists encoded. repeat split; assumption.
Defined.

(** ** The request body of [callGeminiDirect] *)

Lemma hex_value_hex_lower (d : N) : d < 16 -> hex_value (hex_lower d) = Some d.
Proof.
  intros Hd. unfold hex_value, hex_lower, is_digit.
  destruct (d <? 10) eqn:H10.
  - apply N.ltb_lt in H10.
    replace (48 <=? 48 + d) with true by (symmetry; apply N.leb_le; lia).
    replace (48 + d <=? 57) with true by (symmetry; apply N.leb_le; lia).
    cbn [andb]. f_equal. lia.
  - apply N.ltb_ge in H10.
    replace (87 + d <=? 57) with false by (symmetry; apply N.leb_gt; lia).
    rewrite andb_false_r.
    replace (97 <=? 87 + d) with true by (symmetry; apply N.leb_le; lia).
    replace (87 + d <=? 102) with true by (symmetry; apply N.leb_le; lia).
    cbn [andb]. f_equal. lia.
Qed.

Lemma hex_digits_value (c : N) :
  (((0 * 16 + c / 4096) * 16 + (c / 256) mod 16) * 16 + (c / 16) mod 16) * 16
  + c mod 16 = c.
Proof.
  pose proof (N.div_mod c 16) as H0.
  pose proof (N.div_mod (c / 16) 16) as H1.
  pose proof (N.div_mod (c / 256) 16) as H2.
  replace (c / 16 / 16) with (c / 256) in H1 by (rewrite N.Div0.div_div; reflexivity).
  replace (c / 256 / 16) with (c / 4096) in H2 by (rewrite N.Div0.div_div; reflexivity).
  lia.
Qed.

Lemma lex_app (a b : jsstring) (m : lex_mode) :
  lex m (a ++ b)
  = match lex_through m a with
    | None => None
    | Some (m', ta) =>
        match lex m' b with
        | None => None
        | Some tb => Some (ta ++ tb)
        end
    end.
Proof.
  revert m. induction a as [|c a IH]; intros m.
  - cbn [app lex_through]. now destruct (lex m b).
  - cbn [app lex lex_through].
    destruct (lex_step m c) as [[m' toks]|]; [ | reflexivity ].
    rewrite IH. destruct (lex_through m' a) as [[m'' rest]|]; [ | reflexivity ].
    destruct (lex m'' b); [ | reflexivity ].
    now rewrite app_assoc.
Qed.

Lemma lex_silent_step (m m' : lex_mode) (c : N) (s : jsstring) :
  lex_step m c = Some (m', []) -> lex m (c :: s) = lex m' s.
Proof. intros H. cbn [lex]. rewrite H. now destruct (lex m' s). Qed.

Lemma lex_verbatim (acc tail : jsstring) (c : N) :
  c <> DQUOTE -> c <> BACKSLASH -> 32 <= c ->
  lex (LString acc) (c :: tail) = lex (LString (c :: acc)) tail.
Proof.
  intros Hq Hb Hc. apply lex_silent_step. cbn [lex_step].
  apply N.eqb_neq in Hq, Hb. rewrite Hq, Hb.
  replace (c <? 32) with false by (symmetry; apply N.ltb_ge; exact Hc).
  reflexivity.
Qed.

Lemma lex_simple_escape (acc tail : jsstring) (e u : N) :
  e <> 117 -> lex_escape e = Some u ->
  lex (LString acc) (BACKSLASH :: e :: tail) = lex (LString (u :: acc)) tail.
Proof.
  intros He Hu.
  rewrite (lex_silent_step (LString acc) (LEscape acc)) by reflexivity.
  apply lex_silent_step. cbn [lex_step].
  apply N.eqb_neq in He. now rewrite He, Hu.
Qed.

Lemma lex_unicode_escape (acc tail : jsstring) (c : N) :
  c < 65536 ->
  lex (LString acc) (unicode_escape c ++ tail) = lex (LString (c :: acc)) tail.
Proof.
  intros Hc. unfold unicode_escape. cbn [app].
  rewrite (lex_silent_step (LString acc) (LEscape acc)) by reflexivity.
  rewrite (lex_silent_step (LEscape acc) (LUnicode acc 0 4)) by reflexivity.
  assert (H3 : c / 4096 < 16) by (apply N.Div0.div_lt_upper_bound; lia).
  assert (H2 : (c / 256) mod 16 < 16) by (apply N.mod_lt; lia).
  assert (H1 : (c / 16) mod 16 < 16) by (apply N.mod_lt; lia).
  assert (H0 : c mod 16 < 16) by (apply N.mod_lt; lia).
  rewrite (lex_silent_step (LUnicode acc 0 4) (LUnicode acc (0 * 16 + c / 4096) 3))
    by (cbn [lex_step]; now rewrite hex_value_hex_lower).
  rewrite (lex_silent_step _ (LUnicode acc ((0 * 16 + c / 4096) * 16 + (c / 256) mod 16) 2))
    by (cbn [lex_step]; now rewrite hex_value_hex_lower).
  rewrite (lex_silent_step _
             (LUnicode acc (((0 * 16 + c / 4096) * 16 + (c / 256) mod 16) * 16
                            + (c / 16) mod 16) 1))
    by (cbn [lex_step]; now rewrite hex_value_hex_lower).
  rewrite (lex_silent_step _ (LString (c :: acc))); [ reflexivity | ].
  cbn [lex_step]. rewrite hex_value_hex_lower by assumption.
  now rewrite hex_digits_value.
Qed.

Lemma surrogate_verbatim (c : N) :
  is_lead_surrogate c || is_trail_surrogate c = true ->
  c <> DQUOTE /\ c <> BACKSLASH /\ 32 <= c /\ c < 65536.
Proof.
  unfold is_lead_surrogate, is_trail_surrogate, DQUOTE, BACKSLASH.
  rewrite orb_true_iff, !andb_true_iff, !N.leb_le. lia.
Qed.

Lemma lex_quote_unit (acc tail : jsstring) (c : N) :
  lex (LString acc) (quote_unit c ++ tail) = lex (LString (c :: acc)) tail.
Proof.
  unfold quote_unit.
  destruct (c =? 8) eqn:E8; [ apply N.eqb_eq in E8; subst c;
    now apply lex_simple_escape | ].
  destruct (c =? 9) eqn:E9; [ apply N.eqb_eq in E9; subst c;
    now apply lex_simple_escape | ].
  destruct (c =? 10) eqn:E10; [ apply N.eqb_eq in E10; subst c;
    now apply lex_simple_escape | ].
  destruct (c =? 12) eqn:E12; [ apply N.eqb_eq in E12; subst c;
    now apply lex_simple_escape | ].
  destruct (c =? 13) eqn:E13; [ apply N.eqb_eq in E13; subst c;
    now apply lex_simple_escape | ].
  destruct (c =? DQUOTE) eqn:Eq; [ apply N.eqb_eq in Eq; subst c;
    now apply lex_simple_escape | ].
  destruct (c =? BACKSLASH) eqn:Eb; [ apply N.eqb_eq in Eb; subst c;
    now apply lex_simple_escape | ].
  apply N.eqb_neq in Eq, Eb.
  destruct (c <? 32) eqn:E32.
  - apply N.ltb_lt in E32. apply lex_unicode_escape. lia.
  - apply N.ltb_ge in E32. now apply lex_verbatim.
Qed.

Lemma lex_quote_units (s acc rest : jsstring) (after_lead : bool) :
  lex (LString acc) (quote_units after_lead s ++ DQUOTE :: rest)
  = match lex LStart rest with
    | None => None
    | Some ts => Some (TString (rev acc ++ s) :: ts)
    end.
Proof.
  revert acc after_lead. induction s as [|c s IH]; intros acc after_lead.
  - cbn [quote_units app lex lex_step]. rewrite N.eqb_refl.
    rewrite app_nil_r. now destruct (lex LStart rest).
  - cbn [quote_units].
    assert (Hacc : rev (c :: acc) ++ s = rev acc ++ c :: s)
      by (cbn [rev]; now rewrite <- app_assoc).
    rewrite <- Hacc.
    destruct (is_lead_surrogate c) eqn:Hl.
    + destruct (surrogate_verbatim c) as (Hq & Hb & H32 & H16);
        [ now rewrite Hl | ].
      rewrite <- app_assoc.
      destruct (next_is_trail s).
      * cbn [app]. rewrite lex_verbatim by assumption. apply IH.
      * rewrite lex_unicode_escape by assumption. apply IH.
    + destruct (is_trail_surrogate c) eqn:Ht.
      * destruct (surrogate_verbatim c) as (Hq & Hb & H32 & H16);
          [ now rewrite Ht, orb_true_r | ].
        rewrite <- app_assoc.
        destruct after_lead.
        -- cbn [app]. rewrite lex_verbatim by assumption. apply IH.
        -- rewrite lex_unicode_escape by assumption. apply IH.
      * rewrite <- app_assoc, lex_quote_unit. apply IH.
Qed.

(** [JSON.parse] undoes [JSON.stringify] on every string. *)
Lemma JSON_parse_QuoteJSONString (s : jsstring) :
  JSON_parse (QuoteJSONString s) = Ok (Str s).
Proof.
  unfold JSON_parse, QuoteJSONString.
  rewrite (lex_silent_step LStart (LString [])) by reflexivity.
  change [DQUOTE] with (DQUOTE :: []).
  rewrite lex_quote_units. reflexivity.
Qed.

(** X5.  Whatever the key and the prompt, the body of the request of
    [callGeminiDirect] is JSON text, and parsing it gives back the object
    with the brief under contents[0].parts[0].text, code unit for code unit:
    quotes, backslashes, control characters or lone surrogates in the topic
    or the business type cannot break or alter the request. *)
Theorem gemini_request_body_is_json (apiKey prompt : jsstring) :
  exists body,
    req_body (gemini_request apiKey prompt) = Some body
    /\ JSON_parse body = Ok (gemini_contents (brand_brief prompt)).
Proof.
  exists (gemini_body (brand_brief prompt)). split; [ reflexivity | ].
  generalize (brand_brief prompt) as text. intros text.
  unfold JSON_parse, gemini_body, QuoteJSONString.
  replace ((DQUOTE :: quote_units false text ++ [DQUOTE]) ++ lit "}]}]}")
    with ([DQUOTE] ++ quote_units false text ++ DQUOTE :: lit "}]}]}")
    by (cbn [app]; now rewrite <- app_assoc).
  change (lit "{" ++ quoted "contents" ++ lit ":[{" ++ quoted "parts" ++ lit ":[{"
          ++ quoted "text" ++ lit ":"
          ++ [DQUOTE] ++ quote_units false text ++ DQUOTE :: lit "}]}]}")
    with ((lit "{" ++ quoted "contents" ++ lit ":[{" ++ quoted "parts" ++ lit ":[{"
           ++ quoted "text" ++ lit ":" ++ [DQUOTE])
          ++ quote_units false text ++ DQUOTE :: lit "}]}]}").
  rewrite lex_app.
  change (lex_through LStart
            (lit "{" ++ quoted "contents" ++ lit ":[{" ++ quoted "parts" ++ lit ":[{"
             ++ quoted "text" ++ lit ":" ++ [DQUOTE]))
    with (Some (LString [],
                [TLBrace; TString (lit "contents"); TColon; TLBracket; TLBrace;
                 TString (lit "parts"); TColon; TLBracket; TLBrace;
                 TString (lit "text"); TColon])).
  cbv iota beta.
  rewrite lex_quote_units.
  change (lex LStart (lit "}]}]}"))
    with (Some [TRBrace; TRBracket; TRBrace; TRBracket; TRBrace]).
  reflexivity.
Qed.

(** ** The cleaning of [parseResponse] *)

Lemma starts_with_app (pat t : jsstring) : starts_with pat (pat ++ t) = true.
Proof. induction pat as [|p pat IH]; [ reflexivity | ]. cbn. now rewrite N.eqb_refl. Qed.

Lemma remove_matches_skip (pat x t : jsstring) :
  remove_matches pat (List.length x) (x ++ t) = remove_matches pat O t.
Proof. induction x as [|c x IH]; [ reflexivity | exact IH ]. Qed.

Lemma remove_matches_match (p : N) (pat t : jsstring) :
  remove_matches (p :: pat) O ((p :: pat) ++ t) = remove_matches (p :: pat) O t.
Proof.
  change ((p :: pat) ++ t) with (p :: (pat ++ t)).
  cbn [remove_matches].
  change (p :: pat ++ t) with ((p :: pat) ++ t). rewrite starts_with_app.
  apply remove_matches_skip.
Qed.

Lemma remove_matches_other (p : N) (pat s t : jsstring) :
  forallb (fun c => negb (c =? p)) s = true ->
  remove_matches (p :: pat) O (s ++ t) = s ++ remove_matches (p :: pat) O t.
Proof.
  induction s as [|c s IH]; intros H; [ reflexivity | ].
  cbn [forallb] in H. apply andb_true_iff in H. destruct H as [Hc Hs].
  apply negb_true_iff in Hc.
  change ((c :: s) ++ t) with (c :: (s ++ t)).
  cbn [remove_matches starts_with].
  rewrite N.eqb_sym, Hc. cbn [andb]. now rewrite IH.
Qed.

Lemma js_space_no_backtick (a : jsstring) :
  forallb is_js_space a = true -> no_backtick a = true.
Proof.
  induction a as [|c a IH]; intros H; [ reflexivity | ].
  cbn [forallb] in H. apply andb_true_iff in H. destruct H as [Hc Ha].
  unfold no_backtick. cbn [forallb]. fold (no_backtick a). rewrite (IH Ha).
  destruct (c =? 96) eqn:E; [ | reflexivity ].
  apply N.eqb_eq in E. subst c. discriminate Hc.
Qed.

Lemma no_backtick_app (a b : jsstring) :
  no_backtick (a ++ b) = no_backtick a && no_backtick b.
Proof. apply forallb_app. Qed.

Lemma trim_start_spaces (a : jsstring) :
  forallb is_js_space a = true -> trim_start a = [].
Proof.
  induction a as [|c a IH]; intros H; [ reflexivity | ].
  cbn [forallb] in H. apply andb_true_iff in H. destruct H as [Hc Ha].
  cbn [trim_start]. rewrite Hc. now apply IH.
Qed.

Lemma trim_start_after_spaces (a s : jsstring) :
  forallb is_js_space a = true -> trim_start (a ++ s) = trim_start s.
Proof.
  induction a as [|c a IH]; intros H; [ reflexivity | ].
  cbn [forallb] in H. apply andb_true_iff in H. destruct H as [Hc Ha].
  cbn [app trim_start]. rewrite Hc. now apply IH.
Qed.

Lemma trim_start_before_spaces (s b : jsstring) :
  forallb is_js_space b = true ->
  trim_start (s ++ b)
  = match trim_start s with
    | [] => []
    | c :: rest => (c :: rest) ++ b
    end.
Proof.
  intros Hb. induction s as [|c s IH].
  - cbn [app trim_start]. now apply trim_start_spaces.
  - cbn [app trim_start]. destruct (is_js_space c); [ exact IH | reflexivity ].
Qed.

Lemma trim_surrounding_spaces (a s b : jsstring) :
  forallb is_js_space a = true -> forallb is_js_space b = true ->
  trim (a ++ s ++ b) = trim s.
Proof.
  intros Ha Hb. unfold trim.
  rewrite (trim_start_after_spaces a (s ++ b) Ha).
  rewrite (trim_start_before_spaces s b Hb).
  destruct (trim_start s) as [|c rest]; [ reflexivity | ].
  rewrite rev_app_distr.
  rewrite trim_start_after_spaces; [ reflexivity | ].
  rewrite forallb_forall in *. intros x Hx. apply Hb. now apply in_rev.
Qed.

Lemma remove_matches_emit (pat s : jsstring) (c : N) :
  starts_with pat (c :: s) = false ->
  remove_matches pat O (c :: s) = c :: remove_matches pat O s.
Proof. intros H. cbn [remove_matches]. now rewrite H. Qed.

Lemma remove_matches_none (p : N) (pat s : jsstring) :
  forallb (fun c => negb (c =? p)) s = true ->
  remove_matches (p :: pat) O s = s.
Proof.
  intros H. rewrite <- (app_nil_r s) at 1.
  rewrite (remove_matches_other p pat s [] H). apply app_nil_r.
Qed.

Lemma cleanText_no_backtick (j : jsstring) :
  no_backtick j = true -> cleanText j = trim j.
Proof.
  intros Hj. unfold cleanText, replace_global.
  change (lit "```json") with (96 :: lit "``json").
  change (lit "```") with (96 :: lit "``").
  rewrite (remove_matches_none 96 (lit "``json") j Hj).
  rewrite (remove_matches_none 96 (lit "``") j Hj). reflexivity.
Qed.

(** X6.  Code fences around a text are transparent to [parseResponse]: for
    a text without backticks, wrapped in a fence tagged json or (with some
    white space after it) an untagged fence and a closing fence, with any
    white space between the fences and the text, the cleaned text is the
    trimmed text itself, and the result is the one for the bare text. *)
Theorem fences_are_transparent (a j b : jsstring) :
  forallb is_js_space a = true -> forallb is_js_space b = true ->
  no_backtick j = true ->
  cleanText (lit "```json" ++ a ++ j ++ b ++ lit "```") = trim j
  /\ (a <> [] -> cleanText (lit "```" ++ a ++ j ++ b ++ lit "```") = trim j)
  /\ cleanText j = trim j
  /\ parseResponse (Str (lit "```json" ++ a ++ j ++ b ++ lit "```")) = parseResponse (Str j)
  /\ (a <> [] ->
      parseResponse (Str (lit "```" ++ a ++ j ++ b ++ lit "```")) = parseResponse (Str j)).
Proof.
  intros Ha Hb Hj.
  assert (Hin : no_backtick (a ++ j ++ b) = true).
  { now rewrite !no_backtick_app, Hj, !js_space_no_backtick. }
  assert (Hbare : cleanText j = trim j) by now apply cleanText_no_backtick.
  assert (Htagged : cleanText (lit "```json" ++ a ++ j ++ b ++ lit "```") = trim j).
  { unfold cleanText, replace_global.
    change (lit "```json") with (96 :: lit "``json").
    rewrite remove_matches_match.
    replace (a ++ j ++ b ++ lit "```") with ((a ++ j ++ b) ++ lit "```")
      by now rewrite <- !app_assoc.
    rewrite (remove_matches_other 96 (lit "``json") _ _ Hin).
    change (remove_matches (96 :: lit "``json") O (lit "```")) with (lit "```").
    change (lit "```") with (96 :: lit "``") at 1.
    rewrite (remove_matches_other 96 (lit "``") _ _ Hin).
    change (remove_matches (96 :: lit "``") O (lit "```")) with (@nil N).
    rewrite app_nil_r. now apply trim_surrounding_spaces. }
  assert (Hplain : a <> [] ->
                   cleanText (lit "```" ++ a ++ j ++ b ++ lit "```") = trim j).
  { intros Hne. destruct a as [|c a]; [ contradiction | ].
    assert (Hc : (c =? 96) = false /\ (c =? 106) = false).
    { cbn [forallb] in Ha. apply andb_true_iff in Ha. destruct Ha as [Hc _].
      split; apply N.eqb_neq; intros ->; discriminate Hc. }
    destruct Hc as [H96 H106].
    unfold cleanText, replace_global.
    assert (Hfirst : remove_matches (lit "```json") O
                       (lit "```" ++ (c :: a) ++ j ++ b ++ lit "```")
                     = lit "```" ++ ((c :: a) ++ j ++ b) ++ lit "```").
    { change (lit "```" ++ (c :: a) ++ j ++ b ++ lit "```")
        with (96 :: 96 :: 96 :: c :: (a ++ j ++ b ++ lit "```")).
      change (lit "```json") with (96 :: 96 :: 96 :: 106 :: lit "son").
      do 3 rewrite remove_matches_emit
        by (cbn [starts_with]; rewrite ?N.eqb_refl, ?(N.eqb_sym 106 c),
              ?(N.eqb_sym 96 c), ?H96, ?H106; reflexivity).
      change (c :: a ++ j ++ b ++ lit "```") with ((c :: a) ++ j ++ b ++ lit "```").
      replace ((c :: a) ++ j ++ b ++ lit "```") with (((c :: a) ++ j ++ b) ++ lit "```")
        by now rewrite <- !app_assoc.
      rewrite (remove_matches_other 96 (96 :: 96 :: 106 :: lit "son") _ _ Hin).
      reflexivity. }
    rewrite Hfirst.
    change (lit "```" ++ ((c :: a) ++ j ++ b) ++ lit "```")
      with ((96 :: lit "``") ++ ((c :: a) ++ j ++ b) ++ lit "```").
    change (lit "```") with (96 :: lit "``") at 1.
    rewrite remove_matches_match.
    rewrite (remove_matches_other 96 (lit "``") _ _ Hin).
    change (remove_matches (96 :: lit "``") O (lit "```")) with (@nil N).
    rewrite app_nil_r. now apply trim_surrounding_spaces. }
  split; [ exact Htagged | ]. split; [ exact Hplain | ]. split; [ exact Hbare | ].
  split.
  - now rewrite !parseResponse_string, Htagged, Hbare.
  - intros Hne. now rewrite !parseResponse_string, (Hplain Hne), Hbare.
Qed.

Lemma fences_are_transparent_witness :
  parseResponse (Str (lit "```json" ++ [13; LF] ++ Scenario.bare_copy ++ [LF] ++ lit "```"))
  = parseResponse (Str Scenario.bare_copy)
  /\ parseResponse (Str (lit "```" ++ [LF] ++ Scenario.bare_copy ++ [] ++ lit "```"))
     = parseResponse (Str Scenario.bare_copy).
Proof.
  split.
  - destruct (fences_are_transparent [13; LF] Scenario.bare_copy [LF])
      as (_ & _ & _ & Htagged & _); [ reflexivity .. | exact Htagged ].
  - destruct (fences_are_transparent [LF] Scenario.bare_copy [])
      as (_ & _ & _ & _ & Hplain); [ reflexivity .. | ].
    apply Hplain. discriminate.
Defined.

(** ** The [POST] route *)

Lemma jsstring_eqb_eq (a b : jsstring) : jsstring_eqb a b = true <-> a = b.
Proof.
  revert b. induction a as [|x a IH]; intros [|y b]; cbn [jsstring_eqb];
    try (split; [ discriminate | discriminate ]); [ now split | ].
  rewrite andb_true_iff, N.eqb_eq, IH.
  split; [ intros [-> ->]; reflexivity | intros H; injection H; auto ].
Qed.

Lemma jsstring_eqb_refl (a : jsstring) : jsstring_eqb a a = true.
Proof. now apply jsstring_eqb_eq. Qed.

Lemma obj_get_set_same (k : jsstring) (v : value) (o : object) :
  obj_get k (obj_set k v o) = Some v.
Proof.
  induction o as [|[k' v'] o IH]; cbn [obj_set obj_get].
  - now rewrite jsstring_eqb_refl.
  - destruct (jsstring_eqb k k') eqn:E; cbn [obj_get]; rewrite E; [ reflexivity | exact IH ].
Qed.

Lemma obj_get_set_other (k name : jsstring) (v : value) (o : object) :
  jsstring_eqb name k = false ->
  obj_get name (obj_set k v o) = obj_get name o.
Proof.
  intros Hne. induction o as [|[k' v'] o IH]; cbn [obj_set obj_get].
  - now rewrite Hne.
  - destruct (jsstring_eqb k k') eqn:E; cbn [obj_get].
    + apply jsstring_eqb_eq in E. subst k'. now rewrite Hne.
    + destruct (jsstring_eqb name k'); [ reflexivity | exact IH ].
Qed.

Lemma generateMarketingCopy_returns
  (w : world) (topic businessType : jsstring) (log : list event) :
  exists v,
    generateMarketingCopy w topic businessType log
    = (Ok v, log ++ events_of (generateMarketingCopy w topic businessType)).
Proof.
  rewrite (framed_generateMarketingCopy w topic businessType log).
  unfold result_of. rewrite run_generateMarketingCopy. cbv zeta.
  destruct (result_of (callGeminiDirect w (userRequest topic businessType)))
    as [text|err1].
  - destruct (parseResponse_total text) as [v Hv]. rewrite Hv. now exists v.
  - destruct (result_of (callPollinationsText w (userRequest topic businessType)))
      as [text|err2].
    + destruct (parseResponse_total (Str text)) as [v Hv]. rewrite Hv. now exists v.
    + now exists SAFE_MODE.
Qed.

Lemma primary_is_entered (w : world) (topic businessType : jsstring) :
  In (Invoke Primary) (events_of (generateMarketingCopy w topic businessType)).
Proof.
  assert (Hp : In (Invoke Primary)
                 (events_of (callGeminiDirect w (userRequest topic businessType)))).
  { unfold events_of. rewrite run_callGeminiDirect.
    destruct (NEXT_PUBLIC_GEMINI_API_KEY w) as [[|k ey]|]; try (now left).
    cbv zeta. destruct (timer_fires_first _ _); [ now left | ].
    destruct (settles _); now left. }
  unfold events_of at 1. rewrite run_generateMarketingCopy. cbv zeta.
  destruct (result_of (callGeminiDirect w (userRequest topic businessType)));
    [ exact Hp | ].
  destruct (result_of (callPollinationsText w (userRequest topic businessType)));
    cbn [snd]; apply in_or_app; now left.
Qed.

Lemma generatePoster_ill_formed
  (seed : N) (topic businessType : jsstring) (e : engine) :
  well_formed topic && well_formed businessType = false ->
  generatePoster seed topic businessType e = Throw URIError.
Proof.
  intros H. unfold generatePoster.
  rewrite encodeURIComponent_throws; [ reflexivity | ].
  now rewrite poster_prompt_well_formed.
Qed.

(** X7.  A request whose body cannot be read, is not JSON, or is the JSON
    null is answered with status 500 and the error Failed to generate
    campaign; a body that is JSON but a boolean, a number, a string or an
    array is answered with status 400 and the error Business and Topic are
    required.  In both cases nothing is logged: no provider function is
    entered. *)
Theorem POST_without_an_object
  (w : world) (seed : N) (payload : option jsstring) (log : list event) :
  match request_json payload with
  | Throw _ | Ok Null | Ok Undefined => POST w seed payload log = Some (FAILED, log)
  | Ok (Bool _) | Ok (Num _) | Ok (Str _) | Ok (Arr _) =>
      POST w seed payload log = Some (BAD_REQUEST, log)
  | Ok (Obj _) => True
  end.
Proof.
  unfold POST. destruct (request_json payload) as [[ | | flag | n | s | items | props ]|e];
    reflexivity || exact I.
Qed.

(** X8.  When the business or the topic read from the body is absent, null,
    false or the empty string (and the business is not a number), the answer
    is status 400 with the error Business and Topic are required, and the
    log is left as it was: no provider function is entered, no request is
    made. *)
Theorem POST_rejects_blank_input
  (w : world) (seed : N) (text : jsstring) (body business topic : value)
  (log : list event) :
  JSON_parse text = Ok body ->
  get_member body (lit "business") = Ok business ->
  get_member body (lit "topic") = Ok topic ->
  is_number business = false ->
  blank business || blank topic = true ->
  POST w seed (Some text) log = Some (BAD_REQUEST, log).
Proof.
  intros Hbody Hbusiness Htopic Hnum Hblank.
  unfold POST, request_json. rewrite Hbody, Hbusiness, Htopic.
  destruct business as [ | | [|] | n | [|c s] | items | props ];
    try discriminate Hnum; try reflexivity;
    cbn [blank orb] in Hblank;
    destruct topic as [ | | [|] | n' | [|c' s'] | items' | props' ];
    try discriminate Hblank; reflexivity.
Qed.

Lemma POST_rejects_blank_input_witness :
  POST Scenario.w_slow_primary 7
    (Some (lit "{" ++ quoted "topic" ++ lit ":" ++ quoted "Diwali" ++ lit "}")) []
  = Some (BAD_REQUEST, [])
  /\ POST Scenario.w_slow_primary 7 (Some (body_of (lit "Sweets") [])) []
     = Some (BAD_REQUEST, []).
Proof.
  split.
  - apply (POST_rejects_blank_input Scenario.w_slow_primary 7 _
             (Obj [(lit "topic", Str (lit "Diwali"))]) Undefined (Str (lit "Diwali")));
      reflexivity.
  - apply (POST_rejects_blank_input Scenario.w_slow_primary 7 _
             (Obj [(lit "business", Str (lit "Sweets")); (lit "topic", Str [])])
             (Str (lit "Sweets")) (Str []));
      reflexivity.
Defined.

(** X9.  For a body whose business and topic are non-empty, well-formed
    strings, the handler runs the orchestrator on (topic, business), builds
    the poster address for the same pair with the flux engine, and answers
    with status 200 and an object in which imageUrl is that address (a
    property imageUrl of the copy itself is overwritten) while every other
    property is the one of the copy. *)
Theorem POST_answers_with_copy_and_poster
  (w : world) (seed : N) (text t b : jsstring) (body : value) (log : list event) :
  JSON_parse text = Ok body ->
  get_member body (lit "business") = Ok (Str b) ->
  get_member body (lit "topic") = Ok (Str t) ->
  t <> [] -> b <> [] ->
  well_formed t = true -> well_formed b = true ->
  exists strategy log' url props,
    generateMarketingCopy w t b log = (Ok strategy, log')
    /\ generatePoster seed t b Flux = Ok url
    /\ POST w seed (Some text) log
       = Some ({| http_status := 200; http_json := Obj props |}, log')
    /\ obj_get (lit "imageUrl") props = Some (Str url)
    /\ (forall name,
          jsstring_eqb name (lit "imageUrl") = false ->
          obj_get name props = obj_get name (spread strategy)).
Proof.
  intros Hbody Hbusiness Htopic Ht Hb Hwt Hwb.
  destruct (generateMarketingCopy_returns w t b log) as (strategy & Hgen).
  set (log' := log ++ events_of (generateMarketingCopy w t b)) in *.
  assert (Hurl : is_ok (generatePoster seed t b Flux) = true).
  { unfold generatePoster.
    pose proof (encodeURIComponent_ok (poster_prompt t b)) as Hok.
    rewrite poster_prompt_well_formed, Hwt, Hwb in Hok.
    now destruct (encodeURIComponent (poster_prompt t b)). }
  destruct (generatePoster seed t b Flux) as [url|err] eqn:Hposter; [ | discriminate Hurl ].
  exists strategy, log', url, (obj_set (lit "imageUrl") (Str url) (spread strategy)).
  split; [ exact Hgen | ]. split; [ reflexivity | ].
  split; [ | split ].
  - unfold POST, request_json. rewrite Hbody, Hbusiness, Htopic.
    destruct t as [|ct t']; [ contradiction | ].
    destruct b as [|cb b']; [ contradiction | ].
    cbn [missing_input truthy negb template_text].
    now rewrite Hgen, Hposter.
  - apply obj_get_set_same.
  - intros name Hname. now apply obj_get_set_other.
Qed.

Lemma POST_answers_with_copy_and_poster_witness :
  exists strategy log' url props,
    generateMarketingCopy Scenario.w_slow_primary (lit "Diwali") (lit "Sweets") []
      = (Ok strategy, log')
    /\ generatePoster 7 (lit "Diwali") (lit "Sweets") Flux = Ok url
    /\ POST Scenario.w_slow_primary 7 (Some (body_of (lit "Sweets") (lit "Diwali"))) []
       = Some ({| http_status := 200; http_json := Obj props |}, log')
    /\ obj_get (lit "imageUrl") props = Some (Str url)
    /\ (forall name,
          jsstring_eqb name (lit "imageUrl") = false ->
          obj_get name props = obj_get name (spread strategy)).
Proof.
  apply (POST_answers_with_copy_and_poster Scenario.w_slow_primary 7
           (body_of (lit "Sweets") (lit "Diwali")) (lit "Diwali") (lit "Sweets")
           (Obj [(lit "business", Str (lit "Sweets")); (lit "topic", Str (lit "Diwali"))]));
    try reflexivity; discriminate.
Defined.

(** X10.  For a body whose business and topic are non-empty strings of
    which one holds a surrogate without its partner, the handler first runs
    the orchestrator (the primary provider function is entered) and then
    fails in [generatePoster]: the copy is discarded and the answer is
    status 500 with the error Failed to generate campaign. *)
Theorem POST_fails_on_lone_surrogate
  (w : world) (seed : N) (text t b : jsstring) (body : value) (log : list event) :
  JSON_parse text = Ok body ->
  get_member body (lit "business") = Ok (Str b) ->
  get_member body (lit "topic") = Ok (Str t) ->
  t <> [] -> b <> [] ->
  well_formed t && well_formed b = false ->
  POST w seed (Some text) log
    = Some (FAILED, log ++ events_of (generateMarketingCopy w t b))
  /\ In (Invoke Primary) (events_of (generateMarketingCopy w t b)).
Proof.
  intros Hbody Hbusiness Htopic Ht Hb Hwf.
  split.
  - unfold POST, request_json. rewrite Hbody, Hbusiness, Htopic.
    destruct t as [|ct t']; [ contradiction | ].
    destruct b as [|cb b']; [ contradiction | ].
    cbn [missing_input truthy negb template_text].
    rewrite (framed_generateMarketingCopy w (ct :: t') (cb :: b') log).
    rewrite (generatePoster_ill_formed seed _ _ Flux Hwf).
    now destruct (result_of (generateMarketingCopy w (ct :: t') (cb :: b'))).
  - apply primary_is_entered.
Qed.

Lemma POST_fails_on_lone_surrogate_witness :
  POST Scenario.w_slow_primary 7 (Some (body_of (lit "Sweets") [68; 55357])) []
  = Some (FAILED,
          [] ++ events_of (generateMarketingCopy Scenario.w_slow_primary
                             [68; 55357] (lit "Sweets")))
  /\ In (Invoke Primary)
       (events_of (generateMarketingCopy Scenario.w_slow_primary [68; 55357] (lit "Sweets"))).
Proof.
  apply (POST_fails_on_lone_surrogate Scenario.w_slow_primary 7
           (body_of (lit "Sweets") [68; 55357]) [68; 55357] (lit "Sweets")
           (Obj [(lit "business", Str (lit "Sweets")); (lit "topic", Str [68; 55357])]));
    try reflexivity; discriminate.
Defined.

(** ** Edge cases of [callGeminiDirect] *)

(** X11.  When the key is unset or empty, [callGeminiDirect] throws the
    error No Gemini Key at once: no timer is armed and no request is made.
    The orchestrator then runs the secondary call, whose outcome alone
    decides the result. *)
Theorem missing_key_goes_straight_to_secondary
  (w : world) (topic businessType : jsstring) :
  NEXT_PUBLIC_GEMINI_API_KEY w = None \/ NEXT_PUBLIC_GEMINI_API_KEY w = Some [] ->
  let secondary := callPollinationsText w (userRequest topic businessType) in
  run (callGeminiDirect w (userRequest topic businessType))
    = (Throw (JsError (lit "No Gemini Key")), [Invoke Primary; Finish Primary false])
  /\ events_of (generateMarketingCopy w topic businessType)
     = [Invoke Primary; Finish Primary false] ++ events_of secondary
  /\ result_of (generateMarketingCopy w topic businessType)
     = match result_of secondary with
       | Ok text => parseResponse (Str text)
       | Throw _ => Ok SAFE_MODE
       end.
Proof.
  intros Hkey. cbv zeta.
  assert (Hrun : run (callGeminiDirect w (userRequest topic businessType))
                 = (Throw (JsError (lit "No Gemini Key")),
                    [Invoke Primary; Finish Primary false])).
  { rewrite run_callGeminiDirect. now destruct Hkey as [-> | ->]. }
  split; [ exact Hrun | ].
  assert (Hres : result_of (callGeminiDirect w (userRequest topic businessType))
                 = Throw (JsError (lit "No Gemini Key")))
    by (unfold result_of; now rewrite Hrun).
  assert (Hevs : events_of (callGeminiDirect w (userRequest topic businessType))
                 = [Invoke Primary; Finish Primary false])
    by (unfold events_of; now rewrite Hrun).
  unfold result_of at 1, events_of at 1. rewrite run_generateMarketingCopy. cbv zeta.
  rewrite Hres, Hevs.
  destruct (result_of (callPollinationsText w (userRequest topic businessType)));
    split; reflexivity.
Qed.

Lemma missing_key_goes_straight_to_secondary_witness :
  let w := {| NEXT_PUBLIC_GEMINI_API_KEY := Some [];
              net := net Scenario.w_slow_primary |} in
  run (callGeminiDirect w (userRequest (lit "Diwali") (lit "Sweets")))
    = (Throw (JsError (lit "No Gemini Key")), [Invoke Primary; Finish Primary false])
  /\ result_of (generateMarketingCopy w (lit "Diwali") (lit "Sweets"))
     = parseResponse (Str Scenario.fenced_copy).
Proof.
  cbv zeta.
  destruct (missing_key_goes_straight_to_secondary
              {| NEXT_PUBLIC_GEMINI_API_KEY := Some [];
                 net := net Scenario.w_slow_primary |}
              (lit "Diwali") (lit "Sweets")) as (Hrun & _ & Hres).
  - now right.
  - split; [ exact Hrun | ]. rewrite Hres. vm_compute. reflexivity.
Defined.

(** X12.  With the key set, [callGeminiDirect] arms its timer once and
    clears it exactly when [fetch] fulfils (whatever the status): after an
    abort or a failed connection the timer is not cleared. *)
Theorem timer_cleared_only_after_fulfilment
  (w : world) (prompt : jsstring) (k : N) (ey : jsstring) :
  NEXT_PUBLIC_GEMINI_API_KEY w = Some (k :: ey) ->
  let evs := events_of (callGeminiDirect w prompt) in
  let req := gemini_request (k :: ey) prompt in
  filter (fun e => match e with TimerSet _ => true | _ => false end) evs
    = [TimerSet 1500]
  /\ (In TimerCleared evs <-> In (FetchSettle req true (latency (net w req))) evs)
  /\ (In TimerCleared evs <->
      timer_fires_first 1500 (net w req) = false
      /\ exists r, settles (net w req) = Arrives r).
Proof.
  intros Hkey. cbv zeta. unfold events_of.
  rewrite run_callGeminiDirect, Hkey. cbv zeta.
  set (req := gemini_request (k :: ey) prompt). clearbody req.
  change GEMINI_TIMEOUT_MS with 1500.
  destruct (timer_fires_first 1500 (net w req)) eqn:Hf.
  - cbn [snd]. split; [ reflexivity | ]. split; split.
    + intros [H|[H|[H|[H|[H|[H|[]]]]]]]; discriminate H.
    + intros [H|[H|[H|[H|[H|[H|[]]]]]]]; discriminate H.
    + intros [H|[H|[H|[H|[H|[H|[]]]]]]]; discriminate H.
    + intros [H _]. discriminate H.
  - destruct (settles (net w req)) as [|r] eqn:Hs; cbn [snd].
    + split; [ reflexivity | ]. split; split.
      * intros [H|[H|[H|[H|[H|[]]]]]]; discriminate H.
      * intros [H|[H|[H|[H|[H|[]]]]]]; discriminate H.
      * intros [H|[H|[H|[H|[H|[]]]]]]; discriminate H.
      * intros [_ [r Hr]]. discriminate Hr.
    + split; [ unfold body_events; destruct (ok r); reflexivity | ].
      split; split.
      * intros _. cbn [app In]. auto 10.
      * intros _. cbn [app In]. auto 10.
      * intros _. split; [ reflexivity | now exists r ].
      * intros _. cbn [app In]. auto 10.
Qed.

Lemma timer_cleared_only_after_fulfilment_witness :
  ~ In TimerCleared
      (events_of (callGeminiDirect Scenario.w_offline (userRequest [] [])))
  /\ In TimerCleared
       (events_of (callGeminiDirect Scenario.w_refused (userRequest [] []))).
Proof.
  split.
  - destruct (timer_cleared_only_after_fulfilment Scenario.w_offline
                (userRequest [] []) 116 (lit "est-key") eq_refl) as (_ & _ & H).
    intros Hin. apply H in Hin. destruct Hin as [_ [r Hr]]. discriminate Hr.
  - destruct (timer_cleared_only_after_fulfilment Scenario.w_refused
                (userRequest [] []) 116 (lit "est-key") eq_refl) as (_ & _ & H).
    apply H. split; [ reflexivity | eexists; reflexivity ].
Defined.

Lemma read_gemini_not_json (r : response) (body : jsstring) (e : exn) :
  ok r = true -> payload r = Some body -> JSON_parse body = Throw e ->
  result_of (read_gemini r) = Throw e.
Proof.
  intros Hok Hbody Hparse.
  unfold result_of, run, read_gemini. rewrite Hok. cbn [negb].
  unfold response_json, response_text. rewrite Hbody.
  unfold bind, emit, ret, lift. now rewrite Hparse.
Qed.

Lemma read_gemini_no_candidate (r : response) (body : jsstring) (data : value) :
  ok r = true -> payload r = Some body -> JSON_parse body = Ok data ->
  get_member data (lit "candidates") = Ok Undefined
  \/ get_member data (lit "candidates") = Ok Null
  \/ get_member data (lit "candidates") = Ok (Arr []) ->
  result_of (read_gemini r) = Throw TypeError.
Proof.
  intros Hok Hbody Hparse Hc.
  unfold result_of, run, read_gemini. rewrite Hok. cbn [negb].
  unfold response_json, response_text. rewrite Hbody.
  unfold bind, emit, ret, lift. rewrite Hparse.
  destruct Hc as [-> | [-> | ->]]; reflexivity.
Qed.

(** X13.  When Gemini answers in time with a success status but the body
    is not JSON, or is JSON whose candidates member is absent, null or an
    empty array, [callGeminiDirect] throws (a [SyntaxError], respectively a
    [TypeError]) after clearing its timer, and the orchestrator goes on to
    the secondary call, whose outcome decides the result. *)
Theorem unusable_gemini_reply_falls_back
  (w : world) (topic businessType : jsstring) (k : N) (ey : jsstring)
  (r : response) (body : jsstring) :
  NEXT_PUBLIC_GEMINI_API_KEY w = Some (k :: ey) ->
  timer_fires_first GEMINI_TIMEOUT_MS
    (net w (gemini_request (k :: ey) (userRequest topic businessType))) = false ->
  settles (net w (gemini_request (k :: ey) (userRequest topic businessType))) = Arrives r ->
  ok r = true -> payload r = Some body ->
  JSON_parse body = Throw SyntaxError
  \/ (exists data,
        JSON_parse body = Ok data
        /\ (get_member data (lit "candidates") = Ok Undefined
            \/ get_member data (lit "candidates") = Ok Null
            \/ get_member data (lit "candidates") = Ok (Arr []))) ->
  let secondary := callPollinationsText w (userRequest topic businessType) in
  (result_of (callGeminiDirect w (userRequest topic businessType)) = Throw SyntaxError
   \/ result_of (callGeminiDirect w (userRequest topic businessType)) = Throw TypeError)
  /\ In TimerCleared (events_of (callGeminiDirect w (userRequest topic businessType)))
  /\ invocations (events_of (generateMarketingCopy w topic businessType))
     = [Primary; Secondary]
  /\ result_of (generateMarketingCopy w topic businessType)
     = match result_of secondary with
       | Ok text => parseResponse (Str text)
       | Throw _ => Ok SAFE_MODE
       end.
Proof.
  intros Hkey Hf Hs Hok Hbody Hbad. cbv zeta.
  assert (Hread : result_of (read_gemini r) = Throw SyntaxError
                  \/ result_of (read_gemini r) = Throw TypeError).
  { destruct Hbad as [Hsyn | (data & Hdata & Hc)].
    - left. now apply (read_gemini_not_json r body).
    - right. now apply (read_gemini_no_candidate r body data). }
  assert (Hrun : run (callGeminiDirect w (userRequest topic businessType))
                 = (result_of (read_gemini r),
                    [Invoke Primary; TimerSet GEMINI_TIMEOUT_MS;
                     FetchStart (gemini_request (k :: ey) (userRequest topic businessType))
                       (Some GEMINI_TIMEOUT_MS);
                     FetchSettle (gemini_request (k :: ey) (userRequest topic businessType))
                       true
                       (latency (net w (gemini_request (k :: ey)
                                          (userRequest topic businessType))));
                     TimerCleared; BodyRead true (body_delay r);
                     Finish Primary false])).
  { rewrite run_callGeminiDirect, Hkey. cbv zeta. rewrite Hf, Hs.
    unfold body_events. rewrite Hok, Hbody.
    destruct Hread as [-> | ->]; reflexivity. }
  assert (Hres : result_of (callGeminiDirect w (userRequest topic businessType))
                 = result_of (read_gemini r))
    by (unfold result_of at 1; now rewrite Hrun).
  split; [ now rewrite Hres | ].
  split; [ unfold events_of; rewrite Hrun; cbn [snd In]; auto 10 | ].
  unfold result_of at 1, events_of at 1. rewrite run_generateMarketingCopy. cbv zeta.
  rewrite Hres.
  destruct Hread as [-> | ->];
    destruct (result_of (callPollinationsText w (userRequest topic businessType)));
    cbn [fst snd]; rewrite invocations_app, invocations_callGeminiDirect,
      invocations_callPollinationsText; split; reflexivity.
Qed.

Lemma unusable_gemini_reply_falls_back_witness :
  result_of (callGeminiDirect w_no_candidate (userRequest (lit "Diwali") (lit "Sweets")))
    = Throw TypeError
  /\ invocations (events_of (generateMarketingCopy w_no_candidate (lit "Diwali") (lit "Sweets")))
     = [Primary; Secondary]
  /\ result_of (generateMarketingCopy w_no_candidate (lit "Diwali") (lit "Sweets"))
     = parseResponse (Str Scenario.fenced_copy).
Proof.
  destruct (unusable_gemini_reply_falls_back w_no_candidate
              (lit "Diwali") (lit "Sweets") 116 (lit "est-key")
              {| status := 200;
                 payload := Some (lit "{" ++ quoted "candidates" ++ lit ":[]}");
                 body_delay := 0 |}
              (lit "{" ++ quoted "candidates" ++ lit ":[]}"))
    as (Hres & _ & Hinv & Hgen); try reflexivity.
  - right. exists (Obj [(lit "candidates", Arr [])]). split; [ reflexivity | ].
    right. right. reflexivity.
  - split; [ | split; [ exact Hinv | ] ].
    + destruct Hres as [H | H]; [ | exact H ].
      vm_compute in H. discriminate H.
    + rewrite Hgen. vm_compute. reflexivity.
Defined.

Lemma response_in_time_is_read_witness :
  result_of (callGeminiDirect Scenario.w_chatty_primary (userRequest [] []))
    = result_of (read_gemini
                   {| status := 200;
                      payload := Some (Scenario.gemini_envelope Scenario.chatty);
                      body_delay := 0 |})
  /\ In TimerCleared (events_of (callGeminiDirect Scenario.w_chatty_primary (userRequest [] [])))
  /\ ~ In AbortFired (events_of (callGeminiDirect Scenario.w_chatty_primary (userRequest [] []))).
Proof.
  apply (response_in_time_is_read Scenario.w_chatty_primary (userRequest [] [])
           116 (lit "est-key")).
  - reflexivity.
  - vm_compute. reflexivity.
  - reflexivity.
Defined.

(** ** No fence survives the cleaning *)

Lemma starts_with_iff (pat s : jsstring) :
  starts_with pat s = true <-> exists t, s = pat ++ t.
Proof.
  revert s. induction pat as [|p pat IH]; intros s.
  - split; [ intros _; now exists s | reflexivity ].
  - destruct s as [|c s]; cbn [starts_with].
    + split; [ discriminate | intros [t Ht]; discriminate Ht ].
    + rewrite andb_true_iff, N.eqb_eq, IH. split.
      * intros [-> [t ->]]. now exists t.
      * intros [t Ht]. injection Ht as -> ->. split; [ reflexivity | now exists t ].
Qed.

Lemma occurs_iff (pat s : jsstring) :
  occurs pat s = true <-> exists u v, s = u ++ pat ++ v.
Proof.
  induction s as [|c s IH]; cbn [occurs].
  - rewrite starts_with_iff. split.
    + intros [t Ht]. now exists [], t.
    + intros (u & v & H). destruct u; [ now exists v | discriminate H ].
  - rewrite orb_true_iff, starts_with_iff, IH. split.
    + intros [[t Ht] | (u & v & Hs)].
      * now exists [], t.
      * exists (c :: u), v. now rewrite Hs.
    + intros (u & v & H). destruct u as [|x u].
      * left. now exists v.
      * right. injection H as -> ->. now exists u, v.
Qed.

Lemma occurs_infix (pat pre s post : jsstring) :
  occurs pat s = true -> occurs pat (pre ++ s ++ post) = true.
Proof.
  rewrite !occurs_iff. intros (u & v & ->).
  exists (pre ++ u), (v ++ post). now rewrite <- !app_assoc.
Qed.

Lemma trim_start_suffix (s : jsstring) : exists pre, s = pre ++ trim_start s.
Proof.
  induction s as [|c s [pre IH]]; [ now exists [] | ].
  cbn [trim_start]. destruct (is_js_space c).
  - exists (c :: pre). cbn [app]. now rewrite <- IH.
  - now exists [].
Qed.

Lemma trim_infix (s : jsstring) : exists pre post, s = pre ++ trim s ++ post.
Proof.
  unfold trim.
  destruct (trim_start_suffix s) as [pre Hpre].
  destruct (trim_start_suffix (rev (trim_start s))) as [post Hpost].
  exists pre, (rev post).
  rewrite <- rev_app_distr, <- Hpost, rev_involutive. exact Hpre.
Qed.

Lemma starts_with_cons (p c : N) (pat s : jsstring) :
  starts_with (p :: pat) (c :: s) = (p =? c) && starts_with pat s.
Proof. reflexivity. Qed.

Lemma no_fence_after_removal (n : nat) (s : jsstring) :
  (List.length s <= n)%nat ->
  occurs (lit "```") (replace_global (lit "```") s) = false
  /\ (starts_with [96] (replace_global (lit "```") s) = true -> starts_with [96] s = true)
  /\ (starts_with [96; 96] (replace_global (lit "```") s) = true ->
      starts_with [96; 96] s = true).
Proof.
  unfold replace_global. change (lit "```") with [96; 96; 96].
  revert s. induction n as [|n IH]; intros s Hn.
  - destruct s; [ | cbn in Hn; lia ]. repeat split; auto.
  - destruct s as [|c s]; [ repeat split; auto | ].
    destruct (starts_with [96; 96; 96] (c :: s)) eqn:Hm.
    + apply starts_with_iff in Hm. destruct Hm as [t Ht]. rewrite Ht.
      rewrite (remove_matches_match 96 [96; 96] t).
      destruct (IH t) as (Hocc & _ & _).
      { apply (f_equal (@List.length N)) in Ht. cbn [List.length app] in Ht.
        cbn [List.length] in Hn. lia. }
      split; [ exact Hocc | ]. split; intros _; reflexivity.
    + rewrite remove_matches_emit by exact Hm.
      destruct (IH s) as (Hocc & H1 & H2); [ cbn [List.length] in Hn; lia | ].
      split; [ | split ].
      * cbn [occurs]. rewrite Hocc, orb_false_r.
        destruct (starts_with [96; 96; 96] (c :: remove_matches [96; 96; 96] 0 s))
          eqn:Hbad; [ | reflexivity ].
        rewrite starts_with_cons in Hbad, Hm. apply andb_true_iff in Hbad.
        destruct Hbad as [Hc Hbb].
        specialize (H2 Hbb). rewrite Hc, H2 in Hm. discriminate Hm.
      * rewrite !starts_with_cons. intros H. apply andb_true_iff in H.
        destruct H as [-> _]. reflexivity.
      * rewrite !starts_with_cons. intros H. apply andb_true_iff in H.
        destruct H as [Hc Hb]. rewrite Hc. cbn [andb]. now apply H1.
Qed.

(** X14.  The text that [parseResponse] hands to [JSON.parse] never holds
    three backticks in a row, whatever the raw text: one pass of each
    replacement removes every fence, and no fence is left over where two
    pieces meet. *)
Theorem cleanText_has_no_fence (s : jsstring) :
  occurs (lit "```") (cleanText s) = false
  /\ occurs (lit "```json") (cleanText s) = false.
Proof.
  assert (H3 : occurs (lit "```") (cleanText s) = false).
  { unfold cleanText.
    destruct (occurs (lit "```")
                (trim (replace_global (lit "```") (replace_global (lit "```json") s))))
      eqn:Hocc; [ | reflexivity ].
    destruct (trim_infix (replace_global (lit "```") (replace_global (lit "```json") s)))
      as (pre & post & Heq).
    apply (occurs_infix _ pre _ post) in Hocc. rewrite <- Heq in Hocc.
    destruct (no_fence_after_removal _ (replace_global (lit "```json") s) (le_n _))
      as [Hnone _].
    congruence. }
  split; [ exact H3 | ].
  destruct (occurs (lit "```json") (cleanText s)) eqn:H7; [ | reflexivity ].
  apply occurs_iff in H7. destruct H7 as (u & v & Heq).
  assert (Hc : occurs (lit "```") (cleanText s) = true).
  { apply occurs_iff. exists u, (lit "json" ++ v). rewrite Heq. reflexivity. }
  congruence.
Qed.

(** X16.  When [callGeminiDirect] returns something that is not a string
    (undefined, when the first part of the reply has no text member), the
    orchestrator returns the fallback object of the parser and the secondary
    provider function is not entered. *)
Theorem non_string_text_gives_parse_fallback
  (w : world) (topic businessType : jsstring) (text : value) :
  result_of (callGeminiDirect w (userRequest topic businessType)) = Ok text ->
  (forall s, text <> Str s) ->
  result_of (generateMarketingCopy w topic businessType) = Ok PARSE_FALLBACK
  /\ invocations (events_of (generateMarketingCopy w topic businessType)) = [Primary].
Proof.
  intros Hp Hns.
  unfold result_of at 1, events_of. rewrite run_generateMarketingCopy. cbv zeta.
  rewrite Hp. cbn [fst snd].
  split.
  - destruct text; try reflexivity. now destruct (Hns s).
  - apply invocations_callGeminiDirect.
Qed.

Lemma non_string_text_gives_parse_fallback_witness :
  result_of (generateMarketingCopy w_no_text (lit "Diwali") (lit "Sweets"))
    = Ok PARSE_FALLBACK
  /\ invocations (events_of (generateMarketingCopy w_no_text (lit "Diwali") (lit "Sweets")))
     = [Primary].
Proof.
  apply (non_string_text_gives_parse_fallback w_no_text
           (lit "Diwali") (lit "Sweets") Undefined).
  - vm_compute. reflexivity.
  - discriminate.
Defined.
